(** * Archiving-activism demo: the data-join, normalisation and filter core

    A shallow embedding of the two page scripts of the repository:

    - the search page (types, [numericYear], [cleanFileDisplay],
      [coerceTags], [buildDocs], [buildTagSet], [readParams],
      [syncParams], [matchesText], [matchesTags], [matchesEra],
      [scoreRelevance], [applyFilters]) as [Module Search];
    - the 3D cloud page, [src/main.ts] ([cleanFileDisplay],
      [displayTitleFor], [matchesQuery], [buildDocsFromData]) as
      [Module Cloud].

    Conventions of the embedding.

    - A JavaScript string is a Rocq [string] whose characters are the code
      units U+0000..U+00FF (Latin-1).  [toLowerCase], [trim] and the regular
      expressions of the scripts are written out for that range.
    - A JavaScript number that carries a year, an identity or a score is an
      integer [Z]; [NaN] and the infinities are separate constructors where
      the code tests [Number.isFinite].  Years with a fractional part are
      not represented, so a statement about every year is a statement
      about every integer year.  [parseInt] rounds the integer it reads to
      a double.
    - The variable [activeEra] holds a key of [PERIODS] or [null], as it
      is declared.  [readParams] can store a name [PERIODS] inherits from
      [Object.prototype] in it; the embedding of [readParams] gives no
      state there, and what is proved of the states it gives is proved of
      the page booted from any other query string.
    - [String.prototype.localeCompare] belongs to the host; it is a
      parameter [localeCompare] of the definitions that call it.
    - Module-level [let] variables and the DOM controls the scripts read are
      fields of an explicit state record. *)

From Stdlib Require Import ZArith List Ascii String Bool Lia.
From Stdlib Require Import Numbers.DecimalString.
From Stdlib Require Import Sorting.Permutation Sorting.Sorted.
From Stdlib Require Numbers.DecimalPos.
From stdpp Require Import base option strings gmap.

Import ListNotations.
Local Open Scope string_scope.
Local Open Scope Z_scope.

(* ===================================================================== *)
(** * The JavaScript substrate                                            *)
(* ===================================================================== *)

Module JS.

(** ** Characters *)

Definition code (c : ascii) : Z := Z.of_N (N_of_ascii c).

Definition between (lo hi : Z) (c : ascii) : bool :=
  (lo <=? code c) && (code c <=? hi).

(** [\s] of a regular expression, and the characters [trim] removes:
    TAB, LF, VT, FF, CR, SPACE and NO-BREAK SPACE. *)
Definition isWhiteSpace (c : ascii) : bool :=
  between 9 13 c || (code c =? 32) || (code c =? 160).

(** Line terminators, which [.] of a regular expression does not match. *)
Definition isLineTerminator (c : ascii) : bool :=
  (code c =? 10) || (code c =? 13).

Definition isDigit (c : ascii) : bool := between 48 57 c.

(** [[a-z0-9]] under the [i] flag. *)
Definition isAlnum (c : ascii) : bool :=
  isDigit c || between 65 90 c || between 97 122 c.

Definition isHyphen (c : ascii) : bool := code c =? 45.
Definition isUnderscore (c : ascii) : bool := code c =? 95.
Definition isSlash (c : ascii) : bool := code c =? 47.
Definition isDot (c : ascii) : bool := code c =? 46.
Definition isSemiOrComma (c : ascii) : bool := (code c =? 59) || (code c =? 44).
Definition isComma (c : ascii) : bool := code c =? 44.

(** [toLowerCase] on one code unit: A-Z and the Latin-1 capitals
    U+00C0..U+00DE (the multiplication sign U+00D7 apart) move by 32. *)
Definition lowerChar (c : ascii) : ascii :=
  if between 65 90 c || (between 192 222 c && negb (code c =? 215))
  then ascii_of_N (N_of_ascii c + 32)
  else c.

(** ** Strings *)

Fixpoint smap (f : ascii -> ascii) (s : string) : string :=
  match s with
  | EmptyString => EmptyString
  | String c s' => String (f c) (smap f s')
  end.

Fixpoint sall (p : ascii -> bool) (s : string) : bool :=
  match s with
  | EmptyString => true
  | String c s' => p c && sall p s'
  end.

Fixpoint sany (p : ascii -> bool) (s : string) : bool :=
  match s with
  | EmptyString => false
  | String c s' => p c || sany p s'
  end.

Definition isEmpty (s : string) : bool :=
  match s with EmptyString => true | _ => false end.

(** Truthiness of a string: [Boolean(s)]. *)
Definition truthy (s : string) : bool := negb (isEmpty s).

Definition toLowerCase (s : string) : string := smap lowerChar s.

Fixpoint trimStart (s : string) : string :=
  match s with
  | EmptyString => EmptyString
  | String c s' => if isWhiteSpace c then trimStart s' else s
  end.

Fixpoint trimEnd (s : string) : string :=
  match s with
  | EmptyString => EmptyString
  | String c s' =>
      match trimEnd s' with
      | EmptyString => if isWhiteSpace c then EmptyString else String c EmptyString
      | t => String c t
      end
  end.

Definition trim (s : string) : string := trimEnd (trimStart s).

(** [h.includes(t)]. *)
Fixpoint includes (h t : string) : bool :=
  if String.prefix t h then true
  else match h with
       | EmptyString => false
       | String _ h' => includes h' t
       end.

(** The string without its first [n] characters: [s.slice(n)]. *)
Fixpoint sdrop (n : nat) (s : string) : string :=
  match n, s with
  | O, _ => s
  | S n', String _ s' => sdrop n' s'
  | S _, EmptyString => EmptyString
  end.

(** [s.split(sep)] for a separator that matches exactly one character
    ([split('_')], [split('/')], [split(/[;,]/)]): one more segment than
    there are separators, empty segments kept. *)
Fixpoint splitOn (sep : ascii -> bool) (s : string) : list string :=
  match s with
  | EmptyString => [EmptyString]
  | String c s' =>
      if sep c then EmptyString :: splitOn sep s'
      else match splitOn sep s' with
           | w :: ws => String c w :: ws
           | [] => [String c EmptyString]
           end
  end.

(** [s.split(/p+/)]: every maximal run of characters in [p] is one
    separator.  [inRun] says that the previous character was in [p]. *)
Fixpoint splitRunsFrom (p : ascii -> bool) (inRun : bool) (s : string)
  : list string :=
  match s with
  | EmptyString => [EmptyString]
  | String c s' =>
      if p c then
        if inRun then splitRunsFrom p true s'
        else EmptyString :: splitRunsFrom p true s'
      else match splitRunsFrom p false s' with
           | w :: ws => String c w :: ws
           | [] => [String c EmptyString]
           end
  end.

Definition splitRuns (p : ascii -> bool) (s : string) : list string :=
  splitRunsFrom p false s.

(** [s.replace(/p+/g, r)]. *)
Fixpoint replaceRunsFrom (p : ascii -> bool) (r : string) (inRun : bool)
  (s : string) : string :=
  match s with
  | EmptyString => EmptyString
  | String c s' =>
      if p c then
        if inRun then replaceRunsFrom p r true s'
        else r ++ replaceRunsFrom p r true s'
      else String c (replaceRunsFrom p r false s')
  end.

Definition replaceRuns (p : ascii -> bool) (r s : string) : string :=
  replaceRunsFrom p r false s.

(** [s.replace(/\.[a-z0-9]+$/i, '')]: the match starts at the leftmost dot
    that is followed, up to the end of the string, by one or more
    alphanumerics. *)
Fixpoint stripExtension (s : string) : string :=
  match s with
  | EmptyString => EmptyString
  | String c s' =>
      if isDot c && truthy s' && sall isAlnum s' then EmptyString
      else String c (stripExtension s')
  end.

(** [arr.join(sep)]. *)
Definition join (sep : string) (l : list string) : string :=
  String.concat sep l.

(** [arr.pop()] read as an expression: the last element, if any. *)
Definition pop (l : list string) : option string := List.last (map Some l) None.

(** [a || b] on strings. *)
Definition strOr (a b : string) : string := if truthy a then a else b.

(** [a || b] where [a] may be [undefined] or [null]. *)
Definition optOr (a : option string) (b : string) : string :=
  match a with Some s => strOr s b | None => b end.

(** [a || b] where both may be absent. *)
Definition optOrOpt (a b : option string) : option string :=
  match a with
  | Some s => if truthy s then a else b
  | None => b
  end.

(** [a ?? b]. *)
Definition nullish {A} (a b : option A) : option A :=
  match a with Some _ => a | None => b end.

(** ** Numbers and strings *)

(** [String(n)] for an integer (below 10^21 in absolute value, where
    JavaScript prints all the digits). *)
Definition numberToString (z : Z) : string :=
  NilZero.string_of_int (Z.to_int z).

Definition digitValue (c : ascii) : Z := code c - 48.

Fixpoint digitsValue (acc : Z) (s : string) : Z :=
  match s with
  | EmptyString => acc
  | String c s' =>
      if isDigit c then digitsValue (10 * acc + digitValue c) s' else acc
  end.

Definition startsWithDigit (s : string) : bool :=
  match s with String c _ => isDigit c | EmptyString => false end.

Set Warnings "-register-all".

(** ** Loosely typed values

    What a field of the fetched JSON, typed [any] or [unknown] by the
    scripts, can hold at run time.  A number is carried as an integer
    ([VNum]), as the years of the archive are; [VNaN] and [VInfinity]
    (of either sign) are the numbers that are not finite.  A number with
    a fractional part, which a JSON document could also hold, has no
    value here: what is proved of a year below is proved of integer
    years. *)
Inductive value : Type :=
| VUndefined
| VNull
| VBool (b : bool)
| VNum (z : Z)
| VNaN
| VInfinity
| VStr (s : string)
| VArr (xs : list value)
| VObj.

(** The Number value of a non-negative integer [m]: [m] itself below
    2^53, and from there on the nearest double, a multiple of the spacing
    of the doubles at that magnitude, a tie going to the even
    significand; [None] stands for [Infinity], which the rounding reaches
    from 2^1024 - 2^970 on.  (Past twenty significant digits a JavaScript
    engine may also read the later digits as zeros.) *)
Definition toDouble (m : Z) : option Z :=
  if m <? 2 ^ 53 then Some m
  else
    let e := Z.log2 m - 52 in
    let sig := Z.shiftr m e in
    let rest := m - Z.shiftl sig e in
    let half := Z.shiftl 1 (e - 1) in
    let sig := if (half <? rest) || ((rest =? half) && Z.odd sig)
               then sig + 1 else sig in
    let v := Z.shiftl sig e in
    if v <? 2 ^ 1024 then Some v else None.

(** [parseInt(s, 10)]: leading white space is skipped, one sign is read,
    then the longest run of decimal digits, and the integer they spell is
    rounded to a Number; without a digit the result is [NaN]. *)
Definition parseInt10 (s : string) : value :=
  let t := trimStart s in
  let '(neg, r) :=
    match t with
    | String c r =>
        if code c =? 45 then (true, r)
        else if code c =? 43 then (false, r)
        else (false, t)
    | EmptyString => (false, t)
    end in
  if startsWithDigit r
  then match toDouble (digitsValue 0 r) with
       | Some v => VNum (if neg then - v else v)
       | None => VInfinity
       end
  else VNaN.

(** [Number.isFinite(n) ? n : null]. *)
Definition finiteOrNull (n : value) : option Z :=
  match n with VNum z => Some z | _ => None end.

(** [!!v]. *)
Definition truthyValue (v : value) : bool :=
  match v with
  | VUndefined | VNull | VNaN => false
  | VBool b => b
  | VNum z => negb (z =? 0)
  | VInfinity => true
  | VStr s => truthy s
  | VArr _ | VObj => true
  end.

(** ** Sets

    [Set.prototype.add] on the insertion-ordered list of members. *)
Definition setAdd (s : list string) (x : string) : list string :=
  if existsb (String.eqb x) s then s else s ++ [x].

Definition setHas (s : list string) (x : string) : bool :=
  existsb (String.eqb x) s.


(** [\w] of a regular expression; [\W] is its complement. *)
Definition isWordChar (c : ascii) : bool := isAlnum c || isUnderscore c.

(** ** Sorting

    [Array.prototype.sort(cmp)].  The sort is stable, and for a consistent
    comparator the result is the one stable sorted rearrangement, which
    insertion from the right computes: [x] goes before the first [y] with
    [cmp x y <= 0]. *)
Section Sort.
Context {A : Type} (cmp : A -> A -> Z).

Fixpoint insertSorted (x : A) (l : list A) : list A :=
  match l with
  | [] => [x]
  | y :: l' => if cmp x y <=? 0 then x :: l else y :: insertSorted x l'
  end.

Definition sort (l : list A) : list A := fold_right insertSorted [] l.
End Sort.

(** ** URLSearchParams

    The parameter list is an association list in insertion order.  Text
    crosses the URL as UTF-8 bytes; a byte string is a [string] too. *)

Definition utf8EncodeChar (c : ascii) : string :=
  if code c <? 128 then String c EmptyString
  else String (ascii_of_N (Z.to_N (Z.lor 192 (Z.shiftr (code c) 6))))
         (String (ascii_of_N (Z.to_N (Z.lor 128 (Z.land (code c) 63))))
            EmptyString).

Fixpoint utf8Encode (s : string) : string :=
  match s with
  | EmptyString => EmptyString
  | String c s' => utf8EncodeChar c ++ utf8Encode s'
  end.

(** UTF-8 decoding.  [None]: the decoded text has a code point above
    U+00FF, or is malformed (the host would produce U+FFFD), and so leaves
    the strings of this embedding. *)
Fixpoint utf8Decode (b : string) : option string :=
  match b with
  | EmptyString => Some EmptyString
  | String c b' =>
      if code c <? 128 then option_map (String c) (utf8Decode b')
      else if between 194 195 c then
        match b' with
        | String d b'' =>
            if between 128 191 d then
              option_map
                (String (ascii_of_N (Z.to_N
                   (Z.lor (Z.shiftl (Z.land (code c) 31) 6)
                          (Z.land (code d) 63)))))
                (utf8Decode b'')
            else None
        | EmptyString => None
        end
      else None
  end.

Definition hexDigit (n : Z) : ascii :=
  ascii_of_N (Z.to_N (if n <? 10 then 48 + n else 55 + n)).

Definition hexValue (c : ascii) : option Z :=
  if isDigit c then Some (code c - 48)
  else if between 65 70 c then Some (code c - 55)
  else if between 97 102 c then Some (code c - 87)
  else None.

(** The application/x-www-form-urlencoded byte serialiser: alphanumerics
    and [*-._] stay, a space becomes [+], every other byte is [%XX]. *)
Definition formEncodeByte (c : ascii) : string :=
  if isAlnum c || (code c =? 42) || (code c =? 45) || (code c =? 46)
     || (code c =? 95)
  then String c EmptyString
  else if code c =? 32 then "+"
  else String "%" (String (hexDigit (Z.shiftr (code c) 4))
                     (String (hexDigit (Z.land (code c) 15)) EmptyString)).

Fixpoint formEncodeBytes (b : string) : string :=
  match b with
  | EmptyString => EmptyString
  | String c b' => formEncodeByte c ++ formEncodeBytes b'
  end.

Definition formEncode (s : string) : string := formEncodeBytes (utf8Encode s).

(** Percent-decoding of a byte string. *)
Fixpoint percentDecode (b : string) : string :=
  match b with
  | String c b' =>
      let keep := String c (percentDecode b') in
      if code c =? 37 then
        match b' with
        | String h (String l b'') =>
            match hexValue h, hexValue l with
            | Some x, Some y =>
                String (ascii_of_N (Z.to_N (16 * x + y)))
                  (percentDecode b'')
            | _, _ => keep
            end
        | _ => keep
        end
      else keep
  | EmptyString => EmptyString
  end.

Definition plusToSpace (c : ascii) : ascii :=
  if code c =? 43 then ascii_of_N 32 else c.

(** The bytes of one name or value: [+] is a space, then percent-decode,
    then UTF-8 decode. *)
Definition formDecode (b : string) : option string :=
  utf8Decode (percentDecode (smap plusToSpace b)).

(** Splits a byte string at its first [=]; without one the value is
    empty. *)
Fixpoint splitAtEquals (b : string) : string * string :=
  match b with
  | EmptyString => (EmptyString, EmptyString)
  | String c b' =>
      if code c =? 61 then (EmptyString, b')
      else let '(n, v) := splitAtEquals b' in (String c n, v)
  end.

Definition params : Type := list (string * string).

Fixpoint decodePairs (l : list string) : option params :=
  match l with
  | [] => Some []
  | b :: l' =>
      if isEmpty b then decodePairs l'
      else
        let '(n, v) := splitAtEquals b in
        match formDecode n, formDecode v, decodePairs l' with
        | Some n', Some v', Some r => Some ((n', v') :: r)
        | _, _, _ => None
        end
  end.

(** [new URLSearchParams(init)] for a string: one leading [?] is dropped,
    the rest is split at every [&]. *)
Definition parseParams (init : string) : option params :=
  let body :=
    match init with
    | String c r => if code c =? 63 then r else init
    | EmptyString => init
    end in
  decodePairs (splitOn (fun c => code c =? 38) (utf8Encode body)).

(** [p.get(name)]: the first value under [name], or [null]. *)
Fixpoint paramsGet (p : params) (name : string) : option string :=
  match p with
  | [] => None
  | (n, v) :: p' => if String.eqb n name then Some v else paramsGet p' name
  end.

(** [p.set(name, value)]: the first pair under [name] takes the value and
    the later ones go; without one the pair is appended. *)
Definition paramsSet (p : params) (name value : string) : params :=
  let others := List.filter (fun nv => negb (String.eqb (fst nv) name)) in
  (fix go (p : params) : params :=
     match p with
     | [] => [(name, value)]
     | (n, v) :: p' =>
         if String.eqb n name then (n, value) :: others p'
         else (n, v) :: go p'
     end) p.

(** [p.toString()]. *)
Definition paramsToString (p : params) : string :=
  join "&" (map (fun nv => formEncode (fst nv) ++ "=" ++ formEncode (snd nv)) p).

End JS.

Import JS.

(** An identity is a string or a number; [String(id)] is the key of the
    source-B table. *)
Inductive ident : Type :=
| IdStr (s : string)
| IdNum (n : Z).

Definition identKey (i : ident) : string :=
  match i with
  | IdStr s => s
  | IdNum n => numberToString n
  end.

(** The keys of the table [PERIODS] both scripts declare. *)
Inductive EraKey : Type := precursors | thick | today.

(* ===================================================================== *)
(** * The search page                                                     *)
(* ===================================================================== *)

Module Search.

(** ** Types *)

Module FullRecord.
Record t : Type := mk {
  id : ident;
  title : option string;
  year : value;
  description : option string;
  repository : option string;
  tags : value;
  url : option string;
  previewLocal : option string;
  topics : value;
  hires : option (list string);
  schoolPrimary : option string;
}.
End FullRecord.

Module CloudItem.
Record t : Type := mk {
  id : ident;
  title : string;
  year : value;
  repository : option string;
  mediaType : option string;
  description : option string;
  schoolPrimary : option string;
  schoolSecondary : option string;
  tags : value;
  link : option string;
  previewLocal : string;
  documentDirect : option string;
}.
End CloudItem.

Module Doc.
Record t : Type := mk {
  id : ident;
  title : string;
  rawTitle : string;
  year : option Z;
  url : option string;
  tags : list string;
  repo : option string;
  iconURL : string;
  description : option string;
}.
End Doc.

(** ** Era ranges *)

Definition PERIODS (k : EraKey) : Z * Z :=
  match k with
  | precursors => (1940, 1959)
  | thick => (1960, 1989)
  | today => (1990, 2100)
  end.

Definition eraName (k : EraKey) : string :=
  match k with
  | precursors => "precursors"
  | thick => "thick"
  | today => "today"
  end.

(** The own key of [PERIODS] with a given name. *)
Definition eraOfName (s : string) : option EraKey :=
  if String.eqb s "precursors" then Some precursors
  else if String.eqb s "thick" then Some thick
  else if String.eqb s "today" then Some today
  else None.

(** The names [PERIODS] answers to without their being its keys: the
    properties an object literal inherits from [Object.prototype], each
    of them a function or an object, hence truthy. *)
Definition inheritedNames : list string :=
  ["constructor"; "hasOwnProperty"; "isPrototypeOf"; "propertyIsEnumerable";
   "toLocaleString"; "toString"; "valueOf"; "__proto__";
   "__defineGetter__"; "__defineSetter__"; "__lookupGetter__";
   "__lookupSetter__"].

(** What [PERIODS[name]] gives for an arbitrary string [name]. *)
Inductive PeriodsEntry : Type :=
| OwnRange (k : EraKey)
| Inherited
| Missing.

Definition periodsEntry (name : string) : PeriodsEntry :=
  match eraOfName name with
  | Some k => OwnRange k
  | None =>
      if existsb (String.eqb name) inheritedNames then Inherited else Missing
  end.

(** ** Utilities *)

Definition numericYear (y : value) : option Z :=
  match y with
  | VNum n => Some n
  | VStr s => finiteOrNull (parseInt10 s)
  | _ => None
  end.

(** A year already resolved, read back as a value. *)
Definition yearValue (y : option Z) : value :=
  match y with Some n => VNum n | None => VNull end.

Definition hasUnderscore (s : string) : bool := sany isUnderscore s.

Definition cleanFileDisplay (name : string) : string :=
  let base := optOr (pop (splitOn isSlash name)) name in
  let noExt := stripExtension base in
  let parts := splitOn isUnderscore noExt in
  let kept := replaceRuns isHyphen " " (join " " (skipn 3 parts)) in
  trim (replaceRuns isWhiteSpace " " kept).

Definition stringsOf (xs : list value) : list string :=
  flat_map (fun v => match v with VStr s => [s] | _ => [] end) xs.

(** The closure [pushAny] of [coerceTags], with the array [out] it
    appends to passed in and returned. *)
Definition pushAny (out : list string) (val : value) : list string :=
  if negb (truthyValue val) then out
  else match val with
       | VArr xs => out ++ stringsOf xs
       | VStr s => out ++ splitOn isSemiOrComma s
       | _ => out
       end.

Definition wordCount (t : string) : nat :=
  List.length (splitRuns isWhiteSpace t).

Definition dedupStep (acc : list string) (cur : string) : list string :=
  let key := toLowerCase cur in
  if existsb (fun x => String.eqb (toLowerCase x) key) acc then acc
  else acc ++ [cur].

Definition coerceTags (recTags itemTags topics : value) : list string :=
  let out := pushAny [] recTags in
  let out := pushAny out itemTags in
  let out := if Nat.eqb (List.length out) 0 then pushAny out topics else out in
  let trimmed := map trim out in
  let nonEmpty := List.filter (fun t => Nat.ltb 0 (String.length t)) trimmed in
  let short :=
    List.filter
      (fun t => Nat.leb (String.length t) 40 && Nat.leb (wordCount t) 5)
      nonEmpty in
  fold_left dedupStep short [].

(** ** Data *)

(** [rec?.f] for the differently typed fields. *)
Definition recStr (rec : option FullRecord.t)
  (f : FullRecord.t -> option string) : option string :=
  match rec with Some r => f r | None => None end.

Definition recVal (rec : option FullRecord.t)
  (f : FullRecord.t -> value) : value :=
  match rec with Some r => f r | None => VUndefined end.

Definition buildDoc (byId : gmap string FullRecord.t) (it : CloudItem.t)
  : Doc.t :=
  let rec := byId !! identKey (CloudItem.id it) in
  let url :=
    optOrOpt
      (optOrOpt (optOrOpt (CloudItem.documentDirect it)
                   (recStr rec FullRecord.url))
         (CloudItem.link it))
      None in
  let rawTitle :=
    strOr (optOr (recStr rec FullRecord.title) (CloudItem.title it))
      "Untitled" in
  let display :=
    if hasUnderscore rawTitle then cleanFileDisplay rawTitle else rawTitle in
  let tags :=
    coerceTags (recVal rec FullRecord.tags) (CloudItem.tags it)
      (recVal rec FullRecord.topics) in
  {| Doc.id := CloudItem.id it;
     Doc.title := display;
     Doc.rawTitle := rawTitle;
     Doc.year :=
       nullish
         (nullish (numericYear (CloudItem.year it))
            (numericYear (recVal rec FullRecord.year)))
         None;
     Doc.url := url;
     Doc.tags := tags;
     Doc.repo :=
       nullish
         (nullish (recStr rec FullRecord.repository) (CloudItem.repository it))
         None;
     Doc.iconURL := CloudItem.previewLocal it;
     Doc.description :=
       nullish
         (nullish (recStr rec FullRecord.description)
            (CloudItem.description it))
         None |}.

Definition buildDocs (cloud : list CloudItem.t)
  (byId : gmap string FullRecord.t) : list Doc.t :=
  map (buildDoc byId) cloud.

Section Locale.
Variable localeCompare : string -> string -> Z.

Definition buildTagSet (docs : list Doc.t) : list string :=
  let s :=
    fold_left (fun s d => fold_left setAdd (Doc.tags d) s) docs [] in
  sort localeCompare s.
End Locale.

(** ** State

    The module variables [q], [activeTags], [activeEra], and the two
    controls whose value the script reads and writes: the query box
    [els.q] and the sort selector [els.sort]. *)
Record State : Type := mkState {
  q : string;
  activeTags : list string;
  activeEra : option EraKey;
  qBox : string;
  sortValue : string;
}.

(** The state before [readParams] runs: the selector shows its first
    option. *)
Definition initialState : State :=
  {| q := ""; activeTags := []; activeEra := None;
     qBox := ""; sortValue := "relevance" |}.

Definition sortModes : list string :=
  ["relevance"; "year-desc"; "year-asc"; "title-asc"].

(** ** The query-string codec *)

(** The assignments of [readParams], one per parameter. *)
Definition setQuery (st : State) (pq : string) : State :=
  {| q := pq; activeTags := activeTags st; activeEra := activeEra st;
     qBox := pq; sortValue := sortValue st |}.

Definition addTags (st : State) (ptags : list string) : State :=
  {| q := q st; activeTags := fold_left setAdd ptags (activeTags st);
     activeEra := activeEra st; qBox := qBox st; sortValue := sortValue st |}.

Definition setSort (st : State) (s : string) : State :=
  {| q := q st; activeTags := activeTags st; activeEra := activeEra st;
     qBox := qBox st; sortValue := s |}.

Definition setEra (st : State) (era : EraKey) : State :=
  {| q := q st; activeTags := activeTags st; activeEra := Some era;
     qBox := qBox st; sortValue := sortValue st |}.

(** [readParams], with [location.search] as its argument.

    The variable [activeEra] is declared to hold a key of [PERIODS] or
    [null], and [State] holds just that.  The guard [era && PERIODS[era]]
    is wider: it also lets an inherited name through, and the script then
    stores that name in [activeEra], a value no [EraKey] stands for, on
    which [matchesEra] raises a [TypeError] at the first document it is
    asked about.  The result is [None] there: no [State] describes what
    the script has done.  It is [None], too, when the decoded parameters
    leave the modelled strings. *)
Definition readParams (search : string) (st : State) : option State :=
  match parseParams search with
  | None => None
  | Some p =>
      let st :=
        match paramsGet p "q" with
        | Some pq => if truthy pq then setQuery st pq else st
        | None => st
        end in
      let ptags :=
        List.filter truthy (splitOn isComma (optOr (paramsGet p "tags") "")) in
      let st := addTags st ptags in
      let st :=
        match paramsGet p "sort" with
        | Some s =>
            if truthy s && existsb (String.eqb s) sortModes
            then setSort st s else st
        | None => st
        end in
      match paramsGet p "era" with
      | Some era =>
          if truthy era then
            match periodsEntry era with
            | OwnRange k => Some (setEra st k)
            | Inherited => None
            | Missing => Some st
            end
          else Some st
      | None => Some st
      end
  end.

(** What [syncParams] leaves behind: the query string of the replaced URL
    and the text of the result counter. *)
Record Synced : Type := mkSynced {
  queryString : string;
  metaText : string;
}.

Definition syncParams (st : State) (list : list Doc.t) : Synced :=
  let p : params := [] in
  let p := if truthy (q st) then paramsSet p "q" (q st) else p in
  let p :=
    if negb (Nat.eqb (List.length (activeTags st)) 0)
    then paramsSet p "tags" (join "," (activeTags st)) else p in
  let p :=
    match activeEra st with
    | Some k => paramsSet p "era" (eraName k)
    | None => p
    end in
  let p := paramsSet p "sort" (sortValue st) in
  let n := List.length list in
  {| queryString := paramsToString p;
     metaText :=
       numberToString (Z.of_nat n) ++ " result"
         ++ (if Nat.eqb n 1 then "" else "s") |}.

(** [location.search] once [history.replaceState] has run. *)
Definition locationSearch (s : Synced) : string := "?" ++ queryString s.

(** ** Filtering and sorting *)

Definition matchesText (d : Doc.t) (query : string) : bool :=
  if negb (truthy (trim query)) then true
  else
    let hay :=
      toLowerCase (strOr (Doc.title d) "")
        :: toLowerCase (optOr (Doc.description d) "")
        :: map toLowerCase (Doc.tags d) in
    let toks := List.filter truthy (splitRuns isWhiteSpace (toLowerCase query)) in
    forallb (fun t => existsb (fun h => includes h t) hay) toks.

Definition matchesTags (st : State) (d : Doc.t) : bool :=
  if Nat.eqb (List.length (activeTags st)) 0 then true
  else
    let set := fold_left setAdd (map toLowerCase (Doc.tags d)) [] in
    forallb (fun t => setHas set (toLowerCase t)) (activeTags st).

Definition matchesEra (st : State) (d : Doc.t) : bool :=
  match activeEra st with
  | None => true
  | Some k =>
      let '(minY, maxY) := PERIODS k in
      match numericYear (yearValue (Doc.year d)) with
      | Some y => (minY <=? y) && (y <=? maxY)
      | None => false
      end
  end.

Definition scoreRelevance (d : Doc.t) (query : string) : Z :=
  if negb (truthy (trim query)) then 0
  else
    let ql := toLowerCase query in
    let score := 0 in
    let title := toLowerCase (strOr (Doc.title d) "") in
    let desc := toLowerCase (optOr (Doc.description d) "") in
    let score := if includes title ql then score + 5 else score in
    let score := if includes desc ql then score + 2 else score in
    fold_left
      (fun score t => if includes (toLowerCase t) ql then score + 1 else score)
      (Doc.tags d) score.

Definition orDefault (y : option Z) (d : Z) : Z :=
  match y with Some n => n | None => d end.

Section Filters.
Variable localeCompare : string -> string -> Z.

(** The comparator [applyFilters] hands to [sort]. *)
Definition compareDocs (st : State) (a b : Doc.t) : Z :=
  let sort := sortValue st in
  if String.eqb sort "year-desc" then
    orDefault (numericYear (yearValue (Doc.year b))) (-1)
    - orDefault (numericYear (yearValue (Doc.year a))) (-1)
  else if String.eqb sort "year-asc" then
    orDefault (numericYear (yearValue (Doc.year a))) 1
    - orDefault (numericYear (yearValue (Doc.year b))) 1
  else if String.eqb sort "title-asc" then
    localeCompare (strOr (Doc.title a) "") (strOr (Doc.title b) "")
  else scoreRelevance b (q st) - scoreRelevance a (q st).

(** [applyFilters]: the list handed to [renderResults], and what
    [syncParams] wrote. *)
Definition applyFilters (st : State) (DOCS : list Doc.t)
  : list Doc.t * Synced :=
  let filtered :=
    List.filter
      (fun d => matchesText d (q st) && matchesTags st d && matchesEra st d)
      DOCS in
  let filtered := sort (compareDocs st) filtered in
  (filtered, syncParams st filtered).
End Filters.

(** ** Renderers *)

(** One check box of the tag list, as [renderTagList] makes it. *)
Record TagBox : Type := mkTagBox {
  boxId : string;
  boxValue : string;
  boxChecked : bool;
  boxLabel : string;
}.

Definition renderTagList (st : State) (tags : list string) : list TagBox :=
  map (fun t =>
         {| boxId := "tag-" ++ replaceRuns (fun c => negb (isWordChar c)) "-" t;
            boxValue := t;
            boxChecked := setHas (activeTags st) t;
            boxLabel := t |})
    tags.

(** One era chip, as [renderEraChips] makes it: its [data-era] key and
    whether it carries the class [is-active].  (The two label lines hold
    an en dash and are left out.) *)
Record EraChip : Type := mkEraChip {
  chipEra : EraKey;
  chipActive : bool;
}.

Definition eraEqb (a b : EraKey) : bool :=
  match a, b with
  | precursors, precursors | thick, thick | today, today => true
  | _, _ => false
  end.

Definition renderEraChips (st : State) : list EraChip :=
  map (fun key =>
         {| chipEra := key;
            chipActive :=
              match activeEra st with
              | Some k => eraEqb k key
              | None => false
              end |})
    [precursors; thick; today].

(** The text of the year line of a card: the digits of the year, or the
    dash the script prints for a missing year (U+2014, outside the strings
    of this embedding). *)
Inductive YearText : Type :=
| YearDigits (s : string)
| YearDash.

(** One result card, as [renderResults] fills it. *)
Record Card : Type := mkCard {
  heading : string;
  yearText : YearText;
  thumbAlt : string;
  thumbSrc : string;
  pills : list string;
  href : string;
  linkText : string;
}.

Definition renderCard (d : Doc.t) : Card :=
  {| heading := strOr (Doc.title d) "Untitled";
     yearText :=
       match Doc.year d with
       | Some y => YearDigits (numberToString y)
       | None => YearDash
       end;
     thumbAlt := strOr (Doc.title d) "thumbnail";
     thumbSrc := Doc.iconURL d;
     pills := firstn 10 (Doc.tags d);
     href := optOr (Doc.url d) "#";
     linkText :=
       if truthy (optOr (Doc.url d) "") then "Open document"
       else "No link available" |}.

Definition renderResults (docs : list Doc.t) : list Card :=
  map renderCard docs.

(** ** UI wiring *)



(** ** Boot *)

(** What the page holds and shows once [init] has run, the two fetched
    documents given. *)
Record Page : Type := mkPage {
  pageDocs : list Doc.t;
  pageTags : list string;
  pageTagBoxes : list TagBox;
  pageEraChips : list EraChip;
  pageState : State;
  pageCards : list Card;
  pageSynced : Synced;
}.

Section Boot.
Variable localeCompare : string -> string -> Z.

(** [init], with [location.search] as its first argument: the tag list and
    the era chips are rendered, then [readParams] runs, then
    [applyFilters].  There is a page where [readParams] leaves a state,
    that is, unless the [era] parameter is an inherited name. *)
Definition init (search : string) (cloud : list CloudItem.t)
  (byId : gmap string FullRecord.t) : option Page :=
  let DOCS := buildDocs cloud byId in
  let allTags := buildTagSet localeCompare DOCS in
  let boxes := renderTagList initialState allTags in
  let chips := renderEraChips initialState in
  match readParams search initialState with
  | None => None
  | Some st =>
      let '(filtered, synced) := applyFilters localeCompare st DOCS in
      Some {| pageDocs := DOCS; pageTags := allTags; pageTagBoxes := boxes;
              pageEraChips := chips; pageState := st;
              pageCards := renderResults filtered; pageSynced := synced |}
  end.

End Boot.

End Search.

(* ===================================================================== *)
(** * The cloud page                                                      *)
(* ===================================================================== *)

Module Cloud.

(** ** Types *)

Module CloudItem.
Record t : Type := mk {
  id : ident;
  title : string;
  year : value;
  repository : option string;
  mediaType : option string;
  description : option string;
  schoolPrimary : option string;
  schoolSecondary : option string;
  tags : list string;
  link : option string;
  previewLocal : string;
  documentDirect : option string;
}.
End CloudItem.

Module FullRecord.
Record t : Type := mk {
  id : ident;
  title : string;
  year : value;
  repository : option string;
  location : option string;
  mediaType : option string;
  description : option string;
  schoolPrimary : option string;
  schoolSecondary : option string;
  tags : option (list string);
  url : option string;
  hires : option (list string);
  permissions : option bool;
  thumbSource : option string;
  topics : option (list string);
}.
End FullRecord.

Inductive Topic : Type :=
  protest | flyer | surveillance | policy | media | other.

Module Doc.
Record t : Type := mk {
  id : ident;
  title : string;
  year : value;
  url : option string;
  topic : Topic;
  tags : option (list string);
  repo : option string;
  iconURL : string;
  schoolPrimary : option string;
  description : option string;
  topicTitle : option string;
}.
End Doc.

(** ** Period helpers *)

Definition numericYear (y : value) : option Z :=
  match y with
  | VNum n => Some n
  | VStr s => finiteOrNull (parseInt10 s)
  | _ => None
  end.

Definition PERIODS (k : EraKey) : Z * Z :=
  match k with
  | precursors => (1940, 1959)
  | thick => (1960, 1989)
  | today => (1990, 2100)
  end.

(** ** Data loading and mapping *)

Definition hasUnderscore (s : string) : bool := sany isUnderscore s.

Definition cleanFileDisplay (name : string) : string :=
  let base := optOr (pop (splitOn isSlash name)) name in
  let noExt := stripExtension base in
  let parts := splitOn isUnderscore noExt in
  let kept := replaceRuns isHyphen " " (join " " (skipn 3 parts)) in
  trim (replaceRuns isWhiteSpace " " kept).

(** [rec?.f]. *)
Definition recOpt {A} (rec : option FullRecord.t)
  (f : FullRecord.t -> option A) : option A :=
  match rec with Some r => f r | None => None end.

Definition recTitle (rec : option FullRecord.t) : option string :=
  option_map FullRecord.title rec.

(** [a ?? b] on raw values. *)
Definition nullishValue (a b : value) : value :=
  match a with VUndefined | VNull => b | _ => a end.

Section Table.
(** The module variable [BY_ID]. *)
Variable BY_ID : gmap string FullRecord.t.

Definition displayTitleFor (meta : Doc.t) : string :=
  let rec := BY_ID !! identKey (Doc.id meta) in
  let recT := optOr (recTitle rec) "" in
  if truthy recT && hasUnderscore recT then cleanFileDisplay recT
  else if truthy (Doc.title meta) && hasUnderscore (Doc.title meta)
  then cleanFileDisplay (Doc.title meta)
  else
    let fromUrl :=
      optOr (optOrOpt (recOpt rec (fun r => head (default [] (FullRecord.hires r))))
               (Doc.url meta)) "" in
    let base := optOr (pop (splitOn isSlash fromUrl)) "" in
    if truthy fromUrl && hasUnderscore base then cleanFileDisplay base
    else strOr (strOr (Doc.title meta) (optOr (recTitle rec) "")) "Untitled".

(** [t.match(/^tag:(.+)$/)]: the captured group, if the token has the
    form. *)
Definition tagMatch (t : string) : option string :=
  if String.prefix "tag:" t then
    let want := sdrop 4 t in
    if truthy want && sall (fun c => negb (isLineTerminator c)) want
    then Some want else None
  else None.

Definition recTags (rec : option FullRecord.t) : list string :=
  default [] (recOpt rec FullRecord.tags).

Definition matchesQuery (meta : Doc.t) (q : string) : bool :=
  if negb (truthy (trim q)) then true
  else
    let rec := BY_ID !! identKey (Doc.id meta) in
    let hay :=
      toLowerCase (displayTitleFor meta)
        :: toLowerCase (optOr (Doc.description meta) "")
        :: map toLowerCase (default [] (Doc.tags meta))
        ++ map toLowerCase (recTags rec) in
    let tokens := List.filter truthy (splitRuns isWhiteSpace (toLowerCase q)) in
    forallb
      (fun t =>
         match tagMatch t with
         | Some want =>
             let tagPool :=
               fold_left setAdd
                 (map toLowerCase (default [] (Doc.tags meta) ++ recTags rec))
                 [] in
             setHas tagPool want
         | None => existsb (fun h => includes h t) hay
         end)
      tokens.

(** The test [updateVisibility] makes for one sprite. *)
Definition isVisible (activePeriodKey : option EraKey) (searchQuery : string)
  (meta : Doc.t) : bool :=
  let inPeriod :=
    match activePeriodKey with
    | None => true
    | Some k =>
        let '(minY, maxY) := PERIODS k in
        match numericYear (Doc.year meta) with
        | Some y => (minY <=? y) && (y <=? maxY)
        | None => false
        end
    end in
  inPeriod && matchesQuery meta searchQuery.
End Table.

Definition topicOf (mt : string) : Topic :=
  if includes mt "protest" then protest
  else if includes mt "flyer" then flyer
  else if includes mt "surveillance" then surveillance
  else if includes mt "policy" then policy
  else if includes mt "media" || includes mt "newspaper" || includes mt "press"
  then media
  else other.

Definition buildDoc (byId : gmap string FullRecord.t) (it : CloudItem.t)
  : Doc.t :=
  let rec := byId !! identKey (CloudItem.id it) in
  let url :=
    optOrOpt
      (optOrOpt (optOrOpt (CloudItem.documentDirect it)
                   (recOpt rec FullRecord.url))
         (CloudItem.link it))
      None in
  let topicTitle :=
    match recOpt rec FullRecord.topics with
    | Some (t :: _) => Some t
    | _ => None
    end in
  let mt :=
    toLowerCase
      (optOr (optOrOpt (CloudItem.mediaType it) (recOpt rec FullRecord.mediaType))
         "") in
  {| Doc.id := CloudItem.id it;
     Doc.title :=
       strOr (strOr (CloudItem.title it) (optOr (recTitle rec) "")) "Untitled";
     Doc.year :=
       nullishValue
         (nullishValue (CloudItem.year it)
            (match rec with Some r => FullRecord.year r | None => VUndefined end))
         VNull;
     Doc.url := url;
     Doc.topic := topicOf mt;
     Doc.tags :=
       Some
         (match recOpt rec FullRecord.tags with
          | Some (t :: ts) => t :: ts
          | _ => CloudItem.tags it
          end);
     Doc.repo :=
       nullish
         (nullish (recOpt rec FullRecord.repository) (CloudItem.repository it))
         None;
     Doc.iconURL := CloudItem.previewLocal it;
     Doc.schoolPrimary :=
       nullish
         (nullish (recOpt rec FullRecord.schoolPrimary)
            (CloudItem.schoolPrimary it))
         None;
     Doc.description :=
       nullish
         (nullish (recOpt rec FullRecord.description)
            (CloudItem.description it))
         None;
     Doc.topicTitle := topicTitle |}.

Definition buildDocsFromData (cloud : list CloudItem.t)
  (byId : gmap string FullRecord.t) : list Doc.t :=
  map (buildDoc byId) cloud.

End Cloud.

(* ===================================================================== *)
(** * The vocabulary of the specification                                 *)
(* ===================================================================== *)

Import Search.

(** The first non-empty candidate, in the words of the specification;
    [None] is an absent candidate. *)
Fixpoint firstNonEmpty (cands : list (option string)) (dflt : string)
  : string :=
  match cands with
  | [] => dflt
  | Some s :: rest => if truthy s then s else firstNonEmpty rest dflt
  | None :: rest => firstNonEmpty rest dflt
  end.

(** The source-B title of an item, in each script. *)
Definition searchTitleB (byId : gmap string Search.FullRecord.t)
  (it : Search.CloudItem.t) : option string :=
  match byId !! identKey (Search.CloudItem.id it) with
  | Some r => Search.FullRecord.title r
  | None => None
  end.

Definition cloudTitleB (byId : gmap string Cloud.FullRecord.t)
  (it : Cloud.CloudItem.t) : option string :=
  match byId !! identKey (Cloud.CloudItem.id it) with
  | Some r => Some (Cloud.FullRecord.title r)
  | None => None
  end.

(** The title the specification describes: source B, then source A, then
    ["Untitled"]. *)
Definition searchTitleSpec (byId : gmap string Search.FullRecord.t)
  (it : Search.CloudItem.t) : string :=
  firstNonEmpty [searchTitleB byId it; Some (Search.CloudItem.title it)]
    "Untitled".

Definition cloudTitleSpec (byId : gmap string Cloud.FullRecord.t)
  (it : Cloud.CloudItem.t) : string :=
  firstNonEmpty [cloudTitleB byId it; Some (Cloud.CloudItem.title it)]
    "Untitled".

(** What the first two sources put into [out], before any cleaning. *)
Definition rawTags (recTags itemTags : value) : list string :=
  pushAny (pushAny [] recTags) itemTags.

(** A source that puts nothing into [out]: a falsy value, an array without
    a string in it, or a value that is neither an array nor a string. *)
Definition contributesNothing (v : value) : bool :=
  match v with
  | VArr xs => forallb (fun x => match x with VStr _ => false | _ => true end) xs
  | VStr s => isEmpty s
  | _ => true
  end.

(** [t] occurs in [h]. *)
Definition isSubstring (t h : string) : Prop :=
  exists a b, h = (a ++ t ++ b)%string.

(** The tokens of a query: its maximal runs of characters that are not
    white space. *)
Definition tokensOf (query : string) : list string :=
  List.filter truthy (splitRuns isWhiteSpace query).

(** Empty or white-space-only. *)
Definition whitespaceOnly (query : string) : Prop :=
  sall isWhiteSpace query = true.

(** [tok] is a substring of [field], case ignored. *)
Definition ciSubstring (tok field : string) : Prop :=
  isSubstring (toLowerCase tok) (toLowerCase field).

(** [tok] is in the title, in the description, or in at least one tag. *)
Definition tokenInFields (tok title description : string)
  (tags : list string) : Prop :=
  ciSubstring tok title \/ ciSubstring tok description
  \/ Exists (ciSubstring tok) tags.

(** [v] is a member of [tags], case ignored. *)
Definition ciMember (v : string) (tags : list string) : Prop :=
  Exists (fun t => toLowerCase t = toLowerCase v) tags.

(** The value of a token of the form [tag:<value>], with a non-empty
    value; the prefix is read without regard to case, like the rest of the
    query. *)
Definition tagValue (tok : string) : option string :=
  if String.prefix "tag:" (toLowerCase tok) && truthy (sdrop 4 tok)
  then Some (sdrop 4 tok)
  else None.

(** The combined tags of a cloud document: its own and those of its
    source-B record. *)
Definition combinedTags (byId : gmap string Cloud.FullRecord.t)
  (meta : Cloud.Doc.t) : list string :=
  (match Cloud.Doc.tags meta with Some ts => ts | None => [] end
   ++ match byId !! identKey (Cloud.Doc.id meta) with
      | Some r =>
          match Cloud.FullRecord.tags r with Some ts => ts | None => [] end
      | None => []
      end)%list.

Definition searchTextSpec (d : Doc.t) (query : string) : Prop :=
  whitespaceOnly query
  \/ Forall
       (fun tok =>
          tokenInFields tok (Doc.title d) (optOr (Doc.description d) "")
            (Doc.tags d))
       (tokensOf query).

(** The cloud variant in the words of the specification: a plain token
    is looked for in the title, the description and the tags of the
    document, a [tag:] token in the combined tags. *)
Definition cloudTextClaim (byId : gmap string Cloud.FullRecord.t)
  (meta : Cloud.Doc.t) (query : string) : Prop :=
  whitespaceOnly query
  \/ Forall
       (fun tok =>
          match tagValue tok with
          | Some v => ciMember v (combinedTags byId meta)
          | None =>
              tokenInFields tok (Cloud.Doc.title meta)
                (optOr (Cloud.Doc.description meta) "")
                (match Cloud.Doc.tags meta with Some ts => ts | None => [] end)
          end)
       (tokensOf query).

(** The title of the source-B record of a cloud document, empty when the
    table has no record for it. *)
Definition recordTitle (byId : gmap string Cloud.FullRecord.t)
  (meta : Cloud.Doc.t) : string :=
  match byId !! identKey (Cloud.Doc.id meta) with
  | Some r => Cloud.FullRecord.title r
  | None => ""
  end.

(** The file a cloud document is shown from: the first hi-res image of
    its source-B record or, lacking one, the url of the document. *)
Definition shownFile (byId : gmap string Cloud.FullRecord.t)
  (meta : Cloud.Doc.t) : string :=
  firstNonEmpty
    [match byId !! identKey (Cloud.Doc.id meta) with
     | Some r =>
         match Cloud.FullRecord.hires r with
         | Some (h :: _) => Some h
         | _ => None
         end
     | None => None
     end;
     Cloud.Doc.url meta]
    "".

(** What follows the last slash. *)
Definition lastSegment (s : string) : string :=
  optOr (pop (splitOn isSlash s)) "".

(** The title the cloud page shows for a document.  The first of the
    source-B title, the title of the document and the name of the file it
    is shown from that holds an underscore is taken for a filename and
    cleaned; when none does, the title is the first non-empty of the
    title of the document, the source-B title and ["Untitled"]. *)
Definition shownTitle (byId : gmap string Cloud.FullRecord.t)
  (meta : Cloud.Doc.t) : string :=
  match
    List.find hasUnderscore
      [recordTitle byId meta; Cloud.Doc.title meta;
       lastSegment (shownFile byId meta)]
  with
  | Some name => Cloud.cleanFileDisplay name
  | None =>
      firstNonEmpty
        [Some (Cloud.Doc.title meta); Some (recordTitle byId meta)]
        "Untitled"
  end.

(** The cloud variant as the script has it: a plain token is looked for
    in the shown title, the description and the combined tags. *)
Definition cloudTextSpec (byId : gmap string Cloud.FullRecord.t)
  (meta : Cloud.Doc.t) (query : string) : Prop :=
  whitespaceOnly query
  \/ Forall
       (fun tok =>
          match tagValue tok with
          | Some v => ciMember v (combinedTags byId meta)
          | None =>
              tokenInFields tok (shownTitle byId meta)
                (optOr (Cloud.Doc.description meta) "")
                (combinedTags byId meta)
          end)
       (tokensOf query).

(** A source-B record with its tag list taken away, and a table of such
    records: what [matchesQuery] would see if it did not read
    [rec.tags]. *)
Definition stripTags (r : Cloud.FullRecord.t) : Cloud.FullRecord.t :=
  {| Cloud.FullRecord.id := Cloud.FullRecord.id r;
     Cloud.FullRecord.title := Cloud.FullRecord.title r;
     Cloud.FullRecord.year := Cloud.FullRecord.year r;
     Cloud.FullRecord.repository := Cloud.FullRecord.repository r;
     Cloud.FullRecord.location := Cloud.FullRecord.location r;
     Cloud.FullRecord.mediaType := Cloud.FullRecord.mediaType r;
     Cloud.FullRecord.description := Cloud.FullRecord.description r;
     Cloud.FullRecord.schoolPrimary := Cloud.FullRecord.schoolPrimary r;
     Cloud.FullRecord.schoolSecondary := Cloud.FullRecord.schoolSecondary r;
     Cloud.FullRecord.tags := None;
     Cloud.FullRecord.url := Cloud.FullRecord.url r;
     Cloud.FullRecord.hires := Cloud.FullRecord.hires r;
     Cloud.FullRecord.permissions := Cloud.FullRecord.permissions r;
     Cloud.FullRecord.thumbSource := Cloud.FullRecord.thumbSource r;
     Cloud.FullRecord.topics := Cloud.FullRecord.topics r |}.

Definition withoutTags (byId : gmap string Cloud.FullRecord.t)
  : gmap string Cloud.FullRecord.t :=
  stripTags <$> byId.

(** A comparator [sort] can rely on: of two elements one is not after the
    other, and "not after" is transitive. *)
Definition Consistent {A : Type} (cmp : A -> A -> Z) : Prop :=
  (forall a b, 0 < cmp a b -> cmp b a <= 0)
  /\ (forall a b c, cmp a b <= 0 -> cmp b c <= 0 -> cmp a c <= 0).

(** [a] is not after [b] under [cmp]. *)
Definition notAfter {A : Type} (cmp : A -> A -> Z) (a b : A) : Prop :=
  cmp a b <= 0.





(** ** Vocabulary of the further properties *)

(** The three tests of [applyFilters] on one document. *)
Definition passes (st : State) (d : Doc.t) : bool :=
  matchesText d (q st) && matchesTags st d && matchesEra st d.

(** The year a sort mode orders by, a missing year read as [dflt]. *)
Definition yearKey (dflt : Z) (d : Doc.t) : Z := orDefault (Doc.year d) dflt.

(** The three named sort modes; every other value of the selector sorts by
    relevance. *)
Definition namedModes : list string := ["year-desc"; "year-asc"; "title-asc"].

(** The last path segment [cleanFileDisplay] works on, and its
    underscore-delimited segments once the extension is stripped. *)
Definition fileBase (name : string) : string :=
  optOr (pop (splitOn isSlash name)) name.

Definition fileSegments (name : string) : list string :=
  splitOn isUnderscore (stripExtension (fileBase name)).

(** White space occurs in [s] only as single spaces: no white-space
    character but the space, and no two in a row ([prev] says that the
    character before [s] was one). *)
Fixpoint singleSpaced (prev : bool) (s : string) : bool :=
  match s with
  | EmptyString => true
  | String c s' =>
      if isWhiteSpace c
      then (code c =? 32) && negb prev && singleSpaced true s'
      else singleSpaced false s'
  end.

Definition startsClean (s : string) : bool :=
  match s with
  | String c _ => negb (isWhiteSpace c)
  | EmptyString => true
  end.

Definition notUnderscoreOrHyphen (c : ascii) : bool :=
  negb (isUnderscore c) && negb (isHyphen c).

(** The entries [coerceTags] deduplicates: collected, trimmed, and with
    the empty, the long and the wordy ones dropped. *)
Definition tagCandidates (recTags itemTags topics : value) : list string :=
  let out := pushAny [] recTags in
  let out := pushAny out itemTags in
  let out := if Nat.eqb (List.length out) 0 then pushAny out topics else out in
  List.filter
    (fun t => Nat.leb (String.length t) 40 && Nat.leb (wordCount t) 5)
    (List.filter (fun t => Nat.ltb 0 (String.length t)) (map trim out)).

(** A tag as [coerceTags] lets it through. *)
Definition cleanTag (t : string) : Prop :=
  trim t = t /\ t <> "" /\ (String.length t <= 40)%nat /\ (wordCount t <= 5)%nat.



(** The value of a decimal numeral read digit by digit from [acc]. *)
Fixpoint uintValue (acc : Z) (d : Decimal.uint) : Z :=
  match d with
  | Decimal.Nil => acc
  | Decimal.D0 l => uintValue (10 * acc + 0) l
  | Decimal.D1 l => uintValue (10 * acc + 1) l
  | Decimal.D2 l => uintValue (10 * acc + 2) l
  | Decimal.D3 l => uintValue (10 * acc + 3) l
  | Decimal.D4 l => uintValue (10 * acc + 4) l
  | Decimal.D5 l => uintValue (10 * acc + 5) l
  | Decimal.D6 l => uintValue (10 * acc + 6) l
  | Decimal.D7 l => uintValue (10 * acc + 7) l
  | Decimal.D8 l => uintValue (10 * acc + 8) l
  | Decimal.D9 l => uintValue (10 * acc + 9) l
  end.

(* ===================================================================== *)
(** * Inputs the properties are run on                                    *)
(* ===================================================================== *)

Definition flyerName : string :=
  "2021_NYU_flyer_Student-Coalition-Meeting.pdf".

Definition sampleDoc (y : option Z) : Doc.t :=
  Doc.mk (IdNum 1) "Flyer" "x_y_z_Flyer.jpg" y None ["civil"; "rights"]
    None "a.jpg" None.

Definition eraState (k : EraKey) : State :=
  {| q := ""; activeTags := []; activeEra := Some k;
     qBox := ""; sortValue := "relevance" |}.

Definition strikeState : State :=
  {| q := "strike"; activeTags := ["a"; "b"]; activeEra := Some thick;
     qBox := "strike"; sortValue := "year-desc" |}.

Definition yearAscState : State :=
  {| q := ""; activeTags := []; activeEra := None;
     qBox := ""; sortValue := "year-asc" |}.

Definition recordB1 : Cloud.FullRecord.t :=
  Cloud.FullRecord.mk (IdNum 1) "Record_title_of_the_item.pdf" VUndefined None
    None None None None None None None None None None None.

Definition itemA1 : Cloud.CloudItem.t :=
  Cloud.CloudItem.mk (IdNum 1) "Cloud title" VNull None None None None None
    [] None "a.jpg" None.

Definition tableB1 : gmap string Cloud.FullRecord.t := {[ "1" := recordB1 ]}.

(** An item with a plain title whose source-B record names a scan. *)
Definition plainItem : Cloud.CloudItem.t :=
  Cloud.CloudItem.mk (IdNum 2) "Plain" VNull None None None None None
    [] None "p.jpg" None.

Definition plainRecord : Cloud.FullRecord.t :=
  Cloud.FullRecord.mk (IdNum 2) "Plain" VUndefined None None None None None
    None None None (Some ["scans/2020_a_b_Big-March.jpg"]) None None None.

Definition plainTable : gmap string Cloud.FullRecord.t :=
  {[ "2" := plainRecord ]}.

Definition strikeDoc : Doc.t :=
  Doc.mk (IdNum 7) "Strike Committee" "Strike Committee" (Some 1968) None
    ["strike"; "labor"] None "s.jpg"
    (Some "Minutes of the strike committee").

Definition spacedDoc : Doc.t :=
  Doc.mk (IdNum 8) "Strike Committee" "Strike Committee" None None
    [] None "s.jpg" None.

(** Comparison by code units, a comparator to run the index with. *)
Fixpoint codeUnitCompare (a b : string) : Z :=
  match a, b with
  | EmptyString, EmptyString => 0
  | EmptyString, String _ _ => -1
  | String _ _, EmptyString => 1
  | String c a', String d b' =>
      if code c =? code d then codeUnitCompare a' b' else code c - code d
  end.

Definition taggedItem (n : Z) (tags : value) : Search.CloudItem.t :=
  Search.CloudItem.mk (IdNum n) "Leaflet" VNull None None None None None
    tags None "a.jpg" None.

Definition twoCasings : list Doc.t :=
  buildDocs [taggedItem 1 (VArr [VStr "Foo"]); taggedItem 2 (VArr [VStr "foo"])]
    ∅.

Definition archiveRecord : Cloud.FullRecord.t :=
  Cloud.FullRecord.mk (IdNum 1) "Leaflet" VUndefined None None None None None
    None (Some ["archive"]) None None None None None.

Definition archiveTable : gmap string Cloud.FullRecord.t :=
  {[ "1" := archiveRecord ]}.

(** A document value whose tag list is not the builder's. *)
Definition looseDoc : Cloud.Doc.t :=
  Cloud.Doc.mk (IdNum 1) "Leaflet" VNull None Cloud.other (Some ["flyer"])
    None "a.jpg" None None None.

(** A source-A item whose title is a filename of two segments, and the
    items a page is booted from. *)
Definition shortTitleItem : Search.CloudItem.t :=
  Search.CloudItem.mk (IdNum 3) "minutes_1968.pdf" (VNum 1968) None None None
    None None (VStr "labor") None "m.jpg" None.


(* ===================================================================== *)
(** * Properties                                                          *)
(* ===================================================================== *)

(** ** Strings *)

Lemma append_cons (c : ascii) (a b : string) :
  (String c a ++ b)%string = String c (a ++ b)%string.
Proof. reflexivity. Qed.

Lemma append_nil_l (s : string) : ("" ++ s)%string = s.
Proof. reflexivity. Qed.

Lemma prefix_iff (t h : string) :
  String.prefix t h = true <-> exists b, h = (t ++ b)%string.
Proof.
  revert h. induction t as [|c t IH]; intros h.
  - split; [intros _; exists h; reflexivity | destruct h; reflexivity].
  - destruct h as [|d h]; simpl.
    + split; [discriminate | intros (b & H); discriminate].
    + destruct (Ascii.ascii_dec c d) as [-> | Hne].
      * rewrite IH.
        split; intros (b & H); exists b; rewrite ?append_cons in *; congruence.
      * split; [discriminate|].
        intros (b & H). rewrite append_cons in H. congruence.
Qed.

Lemma includes_unfold (h t : string) :
  includes h t =
  if String.prefix t h then true
  else match h with
       | EmptyString => false
       | String _ h' => includes h' t
       end.
Proof. destruct h; reflexivity. Qed.

Lemma includes_iff (h t : string) :
  includes h t = true <-> isSubstring t h.
Proof.
  unfold isSubstring. induction h as [|c h IH]; rewrite includes_unfold;
    destruct (String.prefix t _) eqn:Hp.
  - split; [|reflexivity]. intros _.
    apply prefix_iff in Hp as (b & Hb). exists "", b. exact Hb.
  - split; [discriminate|]. intros (a & b & H).
    destruct a; [|discriminate].
    assert (Hp' : String.prefix t "" = true) by (apply prefix_iff; eauto).
    congruence.
  - split; [|reflexivity]. intros _.
    apply prefix_iff in Hp as (b & Hb). exists "", b. exact Hb.
  - rewrite IH. split.
    + intros (a & b & ->). exists (String c a), b. reflexivity.
    + intros (a & b & H). destruct a as [|c' a].
      * assert (Hp' : String.prefix t (String c h) = true)
          by (apply prefix_iff; eauto).
        congruence.
      * rewrite append_cons in H. injection H as _ ->. eauto.
Qed.

Lemma hasUnderscore_iff (s : string) :
  Search.hasUnderscore s = true <-> exists a b, s = (a ++ "_" ++ b)%string.
Proof.
  unfold Search.hasUnderscore. induction s as [|c s IH]; simpl.
  - split; [discriminate|]. intros (a & b & H). destruct a; discriminate.
  - rewrite orb_true_iff, IH. split.
    + intros [Hc | (a & b & ->)].
      * exists "", s. simpl. f_equal.
        unfold isUnderscore, code in Hc. apply Z.eqb_eq in Hc.
        rewrite <- (ascii_N_embedding c).
        replace (N_of_ascii c) with 95%N by lia. reflexivity.
      * exists (String c a), b. reflexivity.
    + intros (a & b & H). destruct a as [|c' a]; simpl in H.
      * injection H as -> _. left. reflexivity.
      * injection H as _ ->. right. eauto.
Qed.

Lemma strOr_empty (s : string) : strOr s "" = s.
Proof. destruct s; reflexivity. Qed.

Lemma trimStart_empty_iff (s : string) :
  trimStart s = "" <-> sall isWhiteSpace s = true.
Proof.
  induction s as [|c s IH]; simpl; [tauto|].
  destruct (isWhiteSpace c); simpl; [exact IH|].
  split; discriminate.
Qed.

Lemma trimEnd_nonempty (s : string) :
  sall isWhiteSpace s = false -> trimEnd s <> "".
Proof.
  induction s as [|c s IH]; simpl; [discriminate|].
  destruct (trimEnd s) eqn:Ht.
  - destruct (isWhiteSpace c) eqn:Hc; simpl; [|discriminate].
    intros H. exfalso. apply (IH H). reflexivity.
  - discriminate.
Qed.

Lemma trimStart_not_blank (s : string) :
  sall isWhiteSpace s = false -> sall isWhiteSpace (trimStart s) = false.
Proof.
  induction s as [|c s IH]; simpl; [discriminate|].
  destruct (isWhiteSpace c) eqn:Hc; simpl; [exact IH|].
  intros _. rewrite Hc. reflexivity.
Qed.

(** [!query.trim()] holds exactly for the empty and the white-space-only
    queries. *)
Lemma blank_iff (s : string) :
  negb (truthy (trim s)) = sall isWhiteSpace s.
Proof.
  unfold trim, truthy. rewrite negb_involutive.
  destruct (sall isWhiteSpace s) eqn:Hs.
  - apply trimStart_empty_iff in Hs. rewrite Hs. reflexivity.
  - apply trimStart_not_blank in Hs. apply trimEnd_nonempty in Hs.
    destruct (trimEnd (trimStart s)); [congruence | reflexivity].
Qed.

Lemma isWhiteSpace_lowerChar (c : ascii) :
  isWhiteSpace (lowerChar c) = isWhiteSpace c.
Proof. destruct c as [[] [] [] [] [] [] [] []]; reflexivity. Qed.

Lemma lineTerminator_lowerChar (c : ascii) :
  negb (isWhiteSpace c) = true -> negb (isLineTerminator (lowerChar c)) = true.
Proof. destruct c as [[] [] [] [] [] [] [] []]; vm_compute; congruence. Qed.

Lemma truthy_smap (f : ascii -> ascii) (s : string) :
  truthy (smap f s) = truthy s.
Proof. destruct s; reflexivity. Qed.

Lemma sdrop_smap (f : ascii -> ascii) (n : nat) (s : string) :
  sdrop n (smap f s) = smap f (sdrop n s).
Proof.
  revert s. induction n as [|n IH]; intros [|c s]; simpl; auto.
Qed.

Lemma sall_smap (p : ascii -> bool) (f : ascii -> ascii) (s : string) :
  (forall c, p (f c) = p c) -> sall p (smap f s) = sall p s.
Proof. intros H. induction s as [|c s IH]; simpl; [|rewrite H, IH]; reflexivity. Qed.

Lemma sall_sdrop (p : ascii -> bool) (n : nat) (s : string) :
  sall p s = true -> sall p (sdrop n s) = true.
Proof.
  revert s. induction n as [|n IH]; intros [|c s]; simpl; auto.
  intros H. apply andb_true_iff in H as [_ H]. apply IH, H.
Qed.

Lemma sall_impl_smap (p r : ascii -> bool) (f : ascii -> ascii) (s : string) :
  (forall c, p c = true -> r (f c) = true) ->
  sall p s = true -> sall r (smap f s) = true.
Proof.
  intros H. induction s as [|c s IH]; simpl; [reflexivity|].
  intros Hs. apply andb_true_iff in Hs as [Hc Hs].
  rewrite (H c Hc), (IH Hs). reflexivity.
Qed.

Lemma sall_app (p : ascii -> bool) (a b : string) :
  sall p (a ++ b) = sall p a && sall p b.
Proof.
  induction a as [|c a IH]; [reflexivity|].
  rewrite append_cons. simpl. rewrite IH. apply andb_assoc.
Qed.

Lemma sall_weaken (p r : ascii -> bool) (s : string) :
  (forall c, p c = true -> r c = true) -> sall p s = true -> sall r s = true.
Proof.
  intros H. induction s as [|c s IH]; simpl; [reflexivity|].
  intros Hs. apply andb_true_iff in Hs as [Hc Hs].
  rewrite (H c Hc), (IH Hs). reflexivity.
Qed.

(** ** Splitting *)

Section SplitRuns.
Variable p : ascii -> bool.

Lemma splitRunsFrom_smap (f : ascii -> ascii) (b : bool) (s : string) :
  (forall c, p (f c) = p c) ->
  splitRunsFrom p b (smap f s) = map (smap f) (splitRunsFrom p b s).
Proof.
  intros Hpf. revert b. induction s as [|c s IH]; intros b; simpl;
    [reflexivity|].
  rewrite Hpf. destruct (p c).
  - destruct b; rewrite IH; reflexivity.
  - rewrite IH. destruct (splitRunsFrom p false s); reflexivity.
Qed.

(** No segment of a split holds a separator character. *)
Lemma splitRunsFrom_clean (b : bool) (s : string) :
  Forall (fun w => sall (fun c => negb (p c)) w = true)
    (splitRunsFrom p b s).
Proof.
  revert b. induction s as [|c s IH]; intros b; simpl.
  - repeat constructor.
  - destruct (p c) eqn:Hc.
    + destruct b; [apply IH | constructor; [reflexivity | apply IH]].
    + specialize (IH false).
      destruct (splitRunsFrom p false s) as [|w ws].
      * repeat constructor. simpl. rewrite Hc. reflexivity.
      * inversion IH as [|? ? Hw Hws]; subst.
        constructor; [|exact Hws]. simpl. rewrite Hc, Hw. reflexivity.
Qed.
End SplitRuns.

Lemma filter_truthy_smap (f : ascii -> ascii) (l : list string) :
  List.filter truthy (map (smap f) l) = map (smap f) (List.filter truthy l).
Proof.
  induction l as [|w l IH]; simpl; [reflexivity|].
  rewrite truthy_smap. destruct (truthy w); simpl; rewrite IH; reflexivity.
Qed.

Lemma tokensOf_toLowerCase (query : string) :
  tokensOf (toLowerCase query) = map toLowerCase (tokensOf query).
Proof.
  unfold tokensOf, splitRuns, toLowerCase.
  rewrite splitRunsFrom_smap by apply isWhiteSpace_lowerChar.
  apply filter_truthy_smap.
Qed.

Lemma tokensOf_clean (query : string) :
  Forall (fun w => sall (fun c => negb (isWhiteSpace c)) w = true)
    (tokensOf query).
Proof.
  unfold tokensOf, splitRuns.
  pose proof (splitRunsFrom_clean isWhiteSpace false query) as H.
  rewrite List.Forall_forall in *. intros w Hw.
  apply filter_In in Hw as [Hw _]. apply H, Hw.
Qed.

Lemma splitOn_not_nil (p : ascii -> bool) (s : string) : splitOn p s <> [].
Proof.
  destruct s as [|c s]; simpl; [discriminate|].
  destruct (p c); [discriminate|]. destruct (splitOn p s); discriminate.
Qed.

Section SplitOn.
Variable sep : ascii -> bool.



End SplitOn.


(** ** Sets and sorting *)

Lemma setHas_iff (s : list string) (x : string) :
  setHas s x = true <-> In x s.
Proof.
  unfold setHas. rewrite existsb_exists. split.
  - intros (y & Hy & He). apply String.eqb_eq in He. subst. exact Hy.
  - intros H. exists x. split; [exact H | apply String.eqb_refl].
Qed.

Lemma setAdd_In (s : list string) (x t : string) :
  In t (setAdd s x) <-> In t s \/ t = x.
Proof.
  unfold setAdd. fold (setHas s x).
  destruct (setHas s x) eqn:Hx.
  - apply setHas_iff in Hx. split; [tauto|]. intros [H | ->]; assumption.
  - rewrite in_app_iff. simpl. intuition congruence.
Qed.

Lemma setAdd_NoDup (s : list string) (x : string) :
  List.NoDup s -> List.NoDup (setAdd s x).
Proof.
  intros Hs. unfold setAdd. fold (setHas s x).
  destruct (setHas s x) eqn:Hx; [exact Hs|].
  eapply Permutation_NoDup; [apply Permutation_cons_append|].
  constructor; [|exact Hs].
  intros Hin. apply setHas_iff in Hin. congruence.
Qed.

Lemma fold_setAdd_In (l s : list string) (t : string) :
  In t (fold_left setAdd l s) <-> In t s \/ In t l.
Proof.
  revert s. induction l as [|x l IH]; intros s; simpl; [tauto|].
  rewrite IH, setAdd_In. intuition congruence.
Qed.

Lemma fold_setAdd_NoDup (l s : list string) :
  List.NoDup s -> List.NoDup (fold_left setAdd l s).
Proof.
  revert s. induction l as [|x l IH]; intros s Hs; simpl; [exact Hs|].
  apply IH, setAdd_NoDup, Hs.
Qed.


Section SortFacts.
Context {A : Type} (cmp : A -> A -> Z).

Lemma insertSorted_perm (x : A) (l : list A) :
  Permutation (x :: l) (insertSorted cmp x l).
Proof.
  induction l as [|y l IH]; simpl; [reflexivity|].
  destruct (cmp x y <=? 0); [reflexivity|].
  rewrite perm_swap. apply perm_skip, IH.
Qed.

Lemma sort_perm (l : list A) : Permutation l (sort cmp l).
Proof.
  induction l as [|x l IH]; simpl; [reflexivity|].
  rewrite <- insertSorted_perm. apply perm_skip, IH.
Qed.

Lemma insertSorted_sorted (x : A) (l : list A) :
  Consistent cmp ->
  StronglySorted (notAfter cmp) l -> StronglySorted (notAfter cmp) (insertSorted cmp x l).
Proof.
  intros [Hconn Htrans]. induction 1 as [|y l Hl IH Hy]; simpl.
  - repeat constructor.
  - destruct (Z.leb_spec (cmp x y) 0) as [Hxy | Hxy].
    + constructor; [constructor; assumption|].
      constructor; [exact Hxy|].
      eapply List.Forall_impl; [|exact Hy]. intros z Hz. eapply Htrans; eassumption.
    + constructor; [exact IH|].
      eapply Permutation_Forall; [apply insertSorted_perm|].
      constructor; [apply Hconn; lia | exact Hy].
Qed.

Lemma sort_sorted (l : list A) :
  Consistent cmp -> StronglySorted (notAfter cmp) (sort cmp l).
Proof.
  intros Hc. induction l as [|x l IH]; simpl; [constructor|].
  apply insertSorted_sorted; assumption.
Qed.
End SortFacts.

Lemma codeUnitCompare_consistent : Consistent codeUnitCompare.
Proof.
  split.
  - intros a. induction a as [|c a IH]; intros [|d b]; simpl; try lia.
    rewrite (Z.eqb_sym (code d)).
    destruct (Z.eqb_spec (code c) (code d)); [apply IH | lia].
  - intros a. induction a as [|c a IH]; intros [|d b] [|e z]; simpl; try lia.
    destruct (Z.eqb_spec (code c) (code d)) as [Hcd | Hcd];
      destruct (Z.eqb_spec (code d) (code e)) as [Hde | Hde];
      destruct (Z.eqb_spec (code c) (code e)) as [Hce | Hce];
      try lia.
    apply IH.
Qed.

Lemma fold_left_count {A} (p : A -> bool) (l : list A) (z : Z) :
  fold_left (fun score t => if p t then score + 1 else score) l z
  = z + Z.of_nat (List.length (List.filter p l)).
Proof.
  revert z. induction l as [|x l IH]; intros z; simpl; [lia|].
  rewrite IH. destruct (p x); simpl List.length; lia.
Qed.

Lemma Exists_app_same {A} (P : A -> Prop) (l : list A) :
  Exists P (l ++ l) <-> Exists P l.
Proof. rewrite Exists_app. tauto. Qed.

(** ** Field normalisers: filename cleanup *)

(** C8. [cleanFileDisplay] maps
    ["2021_NYU_flyer_Student-Coalition-Meeting.pdf"] to
    ["Student Coalition Meeting"], in both scripts: the extension goes, the
    first three underscore-delimited segments go, the rest is joined with
    spaces, the hyphens become spaces, white space is collapsed and
    trimmed. *)
Theorem cleanFileDisplay_flyer :
  Search.cleanFileDisplay flyerName = "Student Coalition Meeting"
  /\ Cloud.cleanFileDisplay flyerName = "Student Coalition Meeting"
  /\ stripExtension flyerName = "2021_NYU_flyer_Student-Coalition-Meeting"
  /\ splitOn isUnderscore (stripExtension flyerName)
     = ["2021"; "NYU"; "flyer"; "Student-Coalition-Meeting"]
  /\ join " " (skipn 3 (splitOn isUnderscore (stripExtension flyerName)))
     = "Student-Coalition-Meeting"
  /\ replaceRuns isHyphen " " "Student-Coalition-Meeting"
     = "Student Coalition Meeting".
Proof. repeat split; vm_compute; reflexivity. Qed.

(** ** Field normalisers: tag coercion *)

Lemma stringsOf_nil_iff (xs : list value) :
  stringsOf xs = []
  <-> forallb (fun x => match x with VStr _ => false | _ => true end) xs = true.
Proof.
  unfold stringsOf. induction xs as [|x xs IH]; simpl; [tauto|].
  destruct x; simpl; try exact IH. split; discriminate.
Qed.

Lemma pushAny_app (out : list string) (v : value) :
  pushAny out v = (out ++ pushAny [] v)%list.
Proof.
  unfold pushAny. destruct (negb (truthyValue v)); [symmetry; apply app_nil_r|].
  destruct v; simpl; auto using app_nil_r; symmetry; apply app_nil_r.
Qed.

Lemma pushAny_nil_iff (v : value) :
  pushAny [] v = [] <-> contributesNothing v = true.
Proof.
  unfold pushAny. destruct v; simpl; try tauto.
  - destruct b; simpl; tauto.
  - destruct (negb (negb (z =? 0))); tauto.
  - destruct s as [|c s]; simpl; [tauto|].
    split; [|discriminate]. intros H. exfalso.
    destruct (isSemiOrComma c); [discriminate|].
    destruct (splitOn isSemiOrComma s); discriminate.
  - apply stringsOf_nil_iff.
Qed.

Lemma rawTags_nil_iff (r i : value) :
  rawTags r i = [] <-> contributesNothing r && contributesNothing i = true.
Proof.
  unfold rawTags. rewrite (pushAny_app (pushAny [] r) i).
  rewrite andb_true_iff, <- !pushAny_nil_iff.
  split.
  - intros H. apply app_eq_nil in H. exact H.
  - intros [-> ->]. reflexivity.
Qed.

(** Read as C4 states it, the fallback would be taken whenever the first
    two sources clean to nothing.  A first source holding one
    white-space-only entry cleans to nothing, and the topics are not
    consulted: the result is empty, not the topic. *)
Lemma coerceTags_fallback_counterexample :
  coerceTags (VArr [VStr "  "]) VUndefined VUndefined = []
  /\ coerceTags (VArr [VStr "history"]) VUndefined VUndefined = ["history"]
  /\ coerceTags (VArr [VStr "  "]) VUndefined (VArr [VStr "history"]) = []
  /\ ~ (forall r i t : value,
         coerceTags r i VUndefined = [] ->
         coerceTags r i t = coerceTags t VUndefined VUndefined).
Proof.
  split; [vm_compute; reflexivity|].
  split; [vm_compute; reflexivity|].
  split; [vm_compute; reflexivity|].
  intros H.
  specialize (H (VArr [VStr "  "]) VUndefined (VArr [VStr "history"])
                ltac:(vm_compute; reflexivity)).
  vm_compute in H. discriminate.
Qed.

(** C4, as the script has it.  [coerceTags] draws from the primary and
    the secondary source first and turns to the topics exactly when those
    two put no entry at all into the list, which is tested before trimming
    and filtering: then the result is the cleaning of the topics alone;
    otherwise the topics play no part.  The two sources put no entry
    exactly when each is falsy, an array without strings, or neither array
    nor string. *)
Theorem coerceTags_fallback (recTags itemTags topics : value) :
  coerceTags recTags itemTags topics =
  (if contributesNothing recTags && contributesNothing itemTags
   then coerceTags topics VUndefined VUndefined
   else coerceTags recTags itemTags VUndefined)
  /\ (contributesNothing recTags && contributesNothing itemTags = true
      <-> rawTags recTags itemTags = []).
Proof.
  split; [|symmetry; apply rawTags_nil_iff].
  destruct (contributesNothing recTags && contributesNothing itemTags) eqn:Hc.
  - apply rawTags_nil_iff in Hc. unfold rawTags in Hc.
    unfold coerceTags. rewrite Hc. simpl Nat.eqb. cbv iota.
    change (pushAny (pushAny [] topics) VUndefined) with (pushAny [] topics).
    destruct (Nat.eqb (List.length (pushAny [] topics)) 0) eqn:Hn;
      reflexivity.
  - assert (Hr : rawTags recTags itemTags <> []).
    { intros H. apply rawTags_nil_iff in H. congruence. }
    unfold rawTags in Hr. unfold coerceTags.
    destruct (pushAny (pushAny [] recTags) itemTags) as [|x l] eqn:Hp;
      [congruence|].
    reflexivity.
Qed.

(** ** Document builder: title resolution *)

(** The cloud builder against the precedence C1 states: with both titles
    present it keeps the source-A title, and it leaves an underscore title
    as it is. *)
Lemma cloud_builder_title_counterexample :
  map Cloud.Doc.title (Cloud.buildDocsFromData [itemA1] tableB1)
  = ["Cloud title"]
  /\ map (cloudTitleSpec tableB1) [itemA1] = ["Record_title_of_the_item.pdf"]
  /\ map Cloud.Doc.title (Cloud.buildDocsFromData [itemA1] tableB1)
     <> map (cloudTitleSpec tableB1) [itemA1]
  /\ map Cloud.Doc.title (Cloud.buildDocsFromData [itemA1] tableB1)
     <> map (fun it =>
               let t := cloudTitleSpec tableB1 it in
               if Cloud.hasUnderscore t then Cloud.cleanFileDisplay t else t)
          [itemA1].
Proof. repeat split; vm_compute; congruence. Qed.

(** C1, as the scripts have it.  In the search-page builder the
    underlying title [rawTitle] of every source-A item is the first
    non-empty of (source-B title, source-A title, ["Untitled"]), and the
    display title is its filename cleanup exactly when it contains an
    underscore, and the title itself otherwise.  In the cloud-page builder
    the title is the first non-empty of (source-A title, source-B title,
    ["Untitled"]), and the builder applies no cleanup. *)
Theorem builders_title_resolution :
  (forall cloud byId,
      map Search.Doc.rawTitle (Search.buildDocs cloud byId)
      = map (searchTitleSpec byId) cloud
      /\ map Search.Doc.title (Search.buildDocs cloud byId)
         = map (fun it =>
                  let t := searchTitleSpec byId it in
                  if Search.hasUnderscore t then Search.cleanFileDisplay t
                  else t) cloud)
  /\ (forall cloud byId,
         map Cloud.Doc.title (Cloud.buildDocsFromData cloud byId)
         = map (fun it =>
                  firstNonEmpty
                    [Some (Cloud.CloudItem.title it); cloudTitleB byId it]
                    "Untitled") cloud).
Proof.
  assert (Hraw : forall byId it,
             Search.Doc.rawTitle (Search.buildDoc byId it)
             = searchTitleSpec byId it).
  { intros byId it. unfold searchTitleSpec, searchTitleB. simpl.
    unfold Search.recStr, optOr, strOr.
    destruct (byId !! identKey (Search.CloudItem.id it)) as [r|]; simpl.
    - destruct (Search.FullRecord.title r) as [t|]; simpl.
      + destruct (truthy t) eqn:Ht; [rewrite Ht; reflexivity|].
        destruct (truthy (Search.CloudItem.title it)) eqn:Hi;
          rewrite ?Hi; reflexivity.
      + destruct (truthy (Search.CloudItem.title it)) eqn:Hi;
          rewrite ?Hi; reflexivity.
    - destruct (truthy (Search.CloudItem.title it)) eqn:Hi;
        rewrite ?Hi; reflexivity. }
  split.
  - intros cloud byId. unfold Search.buildDocs. rewrite !map_map. split.
    + apply map_ext. intros it. apply Hraw.
    + apply map_ext. intros it. rewrite <- Hraw. reflexivity.
  - intros cloud byId. unfold Cloud.buildDocsFromData. rewrite map_map.
    apply map_ext. intros it. unfold cloudTitleB. simpl.
    unfold Cloud.recTitle, optOr, strOr.
    destruct (truthy (Cloud.CloudItem.title it)) eqn:Hi; rewrite ?Hi;
      [reflexivity|].
    destruct (byId !! identKey (Cloud.CloudItem.id it)) as [r|]; simpl;
      [|reflexivity].
    destruct (truthy (Cloud.FullRecord.title r)) eqn:Hr; rewrite ?Hr;
      reflexivity.
Qed.

(** ** Tag index *)

Lemma collectTags_from_In (docs : list Doc.t) (s : list string) (t : string) :
  In t (fold_left (fun s d => fold_left setAdd (Doc.tags d) s) docs s)
  <-> In t s \/ exists d, In d docs /\ In t (Doc.tags d).
Proof.
  revert s. induction docs as [|d docs IH]; intros s; simpl.
  - split; [tauto|]. intros [H | (d & [] & _)]. exact H.
  - rewrite IH, fold_setAdd_In. split.
    + intros [[H | H] | (d' & Hd & Ht)]; eauto.
    + intros [H | (d' & [<- | Hd] & Ht)]; eauto.
Qed.

Lemma collectTags_from_NoDup (docs : list Doc.t) (s : list string) :
  List.NoDup s ->
  List.NoDup (fold_left (fun s d => fold_left setAdd (Doc.tags d) s) docs s).
Proof.
  revert s. induction docs as [|d docs IH]; intros s Hs; simpl; [exact Hs|].
  apply IH, fold_setAdd_NoDup, Hs.
Qed.

(** Two built documents that carry ["Foo"] and ["foo"] give a vocabulary
    with both entries: two entries of one case-insensitive class. *)
Lemma buildTagSet_casing_counterexample :
  map Doc.tags twoCasings = [["Foo"]; ["foo"]]
  /\ buildTagSet codeUnitCompare twoCasings = ["Foo"; "foo"]
  /\ ~ (forall (localeCompare : string -> string -> Z) (docs : list Doc.t),
         List.NoDup (map toLowerCase (buildTagSet localeCompare docs))).
Proof.
  split; [vm_compute; reflexivity|].
  split; [vm_compute; reflexivity|].
  intros H. specialize (H codeUnitCompare twoCasings).
  vm_compute in H. inversion H as [|x l Hin _]. apply Hin. left. reflexivity.
Qed.

(** C3, as the script has it.  The vocabulary has every tag string of
    every document exactly once, strings compared as they are: two tags
    that differ only in case are two entries, each in its own casing.
    For a consistent [localeCompare] the output is sorted by it. *)
Theorem buildTagSet_vocabulary (localeCompare : string -> string -> Z)
  (docs : list Doc.t) :
  List.NoDup (buildTagSet localeCompare docs)
  /\ (forall t, In t (buildTagSet localeCompare docs)
               <-> exists d, In d docs /\ In t (Doc.tags d))
  /\ (Consistent localeCompare ->
      StronglySorted (notAfter localeCompare) (buildTagSet localeCompare docs)).
Proof.
  unfold buildTagSet. split; [|split].
  - eapply Permutation_NoDup; [apply sort_perm|].
    apply collectTags_from_NoDup. constructor.
  - intros t. split.
    + intros H. eapply Permutation_in in H; [|symmetry; apply sort_perm].
      apply collectTags_from_In in H as [[] | H]. exact H.
    + intros H. eapply Permutation_in; [apply sort_perm|].
      apply collectTags_from_In. right. exact H.
  - apply sort_sorted.
Qed.

Lemma buildTagSet_vocabulary_witness :
  Consistent codeUnitCompare
  /\ StronglySorted (notAfter codeUnitCompare)
       (buildTagSet codeUnitCompare twoCasings).
Proof.
  split; [exact codeUnitCompare_consistent|].
  apply (buildTagSet_vocabulary codeUnitCompare twoCasings).
  exact codeUnitCompare_consistent.
Defined.

(** ** Filter predicates: text *)

Lemma forallb_tokens (f : string -> bool) (P : string -> Prop)
  (query : string) :
  (forall tok, In tok (tokensOf query) -> (f (toLowerCase tok) = true <-> P tok)) ->
  forallb f (tokensOf (toLowerCase query)) = true <-> Forall P (tokensOf query).
Proof.
  intros Hf. rewrite tokensOf_toLowerCase, forallb_forall, List.Forall_forall.
  split.
  - intros H tok Hin. apply Hf; [exact Hin|]. apply H, in_map, Hin.
  - intros H t Hin. apply in_map_iff in Hin as (tok & <- & Hin).
    apply Hf; [exact Hin | apply H, Hin].
Qed.

Lemma existsb_hay (t : string) (fields : list string) :
  existsb (fun h => includes h t) (map toLowerCase fields) = true
  <-> Exists (fun field => isSubstring t (toLowerCase field)) fields.
Proof.
  rewrite existsb_exists, List.Exists_exists. split.
  - intros (h & Hin & Hh). apply in_map_iff in Hin as (field & <- & Hin).
    exists field. split; [exact Hin | apply includes_iff, Hh].
  - intros (field & Hin & Hh). exists (toLowerCase field).
    split; [apply in_map, Hin | apply includes_iff, Hh].
Qed.

Lemma tokenInFields_iff (tok title description : string) (tags : list string) :
  tokenInFields tok title description tags
  <-> Exists (fun field => isSubstring (toLowerCase tok) (toLowerCase field))
        (title :: description :: tags).
Proof.
  unfold tokenInFields, ciSubstring. rewrite !Exists_cons. tauto.
Qed.

(** On a token, the regular expression of [matchesQuery] finds what
    [tagValue] describes. *)
Lemma tagMatch_toLowerCase (tok : string) :
  sall (fun c => negb (isWhiteSpace c)) tok = true ->
  Cloud.tagMatch (toLowerCase tok) = option_map toLowerCase (tagValue tok).
Proof.
  intros Hclean.
  assert (Hd : sdrop 4 (toLowerCase tok) = toLowerCase (sdrop 4 tok))
    by apply sdrop_smap.
  assert (Ht : truthy (toLowerCase (sdrop 4 tok)) = truthy (sdrop 4 tok))
    by apply truthy_smap.
  assert (Hl : sall (fun c => negb (isLineTerminator c))
                 (toLowerCase (sdrop 4 tok)) = true).
  { apply (sall_impl_smap (fun c => negb (isWhiteSpace c))).
    - intros c Hc. apply lineTerminator_lowerChar, Hc.
    - apply sall_sdrop, Hclean. }
  unfold Cloud.tagMatch, tagValue. cbv zeta.
  destruct (String.prefix "tag:" (toLowerCase tok)); [|reflexivity].
  rewrite Hd, Ht, Hl.
  destruct (truthy (sdrop 4 tok)); reflexivity.
Qed.

Lemma tagPool_has (tags : list string) (v : string) :
  setHas (fold_left setAdd (map toLowerCase tags) []) (toLowerCase v) = true
  <-> ciMember v tags.
Proof.
  unfold ciMember. rewrite setHas_iff, fold_setAdd_In, List.Exists_exists.
  split.
  - intros [[] | Hin]. apply in_map_iff in Hin as (t & Ht & Hin). eauto.
  - intros (t & Hin & Ht). right. rewrite <- Ht. apply in_map, Hin.
Qed.

Lemma matchesText_iff (d : Doc.t) (query : string) :
  matchesText d query = true <-> searchTextSpec d query.
Proof.
  unfold matchesText, searchTextSpec, whitespaceOnly.
  rewrite blank_iff. destruct (sall isWhiteSpace query) eqn:Hb.
  - split; [left; reflexivity | reflexivity].
  - cbv zeta. rewrite strOr_empty.
    change (List.filter truthy (splitRuns isWhiteSpace (toLowerCase query)))
      with (tokensOf (toLowerCase query)).
    etransitivity.
    + apply forallb_tokens with
        (P := fun tok =>
                tokenInFields tok (Doc.title d)
                  (optOr (Doc.description d) "") (Doc.tags d)).
      intros tok _. rewrite tokenInFields_iff, <- existsb_hay. reflexivity.
    + split; [intros H; right; exact H|].
      intros [H | H]; [discriminate | exact H].
Qed.

Lemma combinedTags_eq (byId : gmap string Cloud.FullRecord.t)
  (meta : Cloud.Doc.t) :
  combinedTags byId meta
  = (default [] (Cloud.Doc.tags meta)
     ++ Cloud.recTags (byId !! identKey (Cloud.Doc.id meta)))%list.
Proof.
  unfold combinedTags, Cloud.recTags, Cloud.recOpt.
  destruct (Cloud.Doc.tags meta);
    destruct (byId !! identKey (Cloud.Doc.id meta)) as [r|];
    try destruct (Cloud.FullRecord.tags r); reflexivity.
Qed.

(** [matchesQuery], field by field. *)
Lemma matchesQuery_fields (byId : gmap string Cloud.FullRecord.t)
  (meta : Cloud.Doc.t) (query : string) :
  Cloud.matchesQuery byId meta query = true
  <-> (whitespaceOnly query
       \/ Forall
            (fun tok =>
               match tagValue tok with
               | Some v => ciMember v (combinedTags byId meta)
               | None =>
                   tokenInFields tok (Cloud.displayTitleFor byId meta)
                     (optOr (Cloud.Doc.description meta) "")
                     (combinedTags byId meta)
               end)
            (tokensOf query)).
Proof.
  unfold Cloud.matchesQuery, whitespaceOnly.
  rewrite blank_iff. destruct (sall isWhiteSpace query) eqn:Hb.
  - split; [left; reflexivity | reflexivity].
  - cbv zeta.
    change (List.filter truthy (splitRuns isWhiteSpace (toLowerCase query)))
      with (tokensOf (toLowerCase query)).
    etransitivity.
    + apply forallb_tokens with
        (P := fun tok =>
                match tagValue tok with
                | Some v => ciMember v (combinedTags byId meta)
                | None =>
                    tokenInFields tok (Cloud.displayTitleFor byId meta)
                      (optOr (Cloud.Doc.description meta) "")
                      (combinedTags byId meta)
                end).
      intros tok Hin.
      pose proof (tokensOf_clean query) as Hclean.
      rewrite List.Forall_forall in Hclean.
      rewrite (tagMatch_toLowerCase tok (Hclean tok Hin)).
      destruct (tagValue tok) as [v|]; simpl option_map; cbv iota.
      * rewrite combinedTags_eq. apply tagPool_has.
      * rewrite tokenInFields_iff, <- existsb_hay.
        rewrite combinedTags_eq. simpl map. rewrite map_app. reflexivity.
    + split; [intros H; right; exact H|].
      intros [H | H]; [discriminate | exact H].
Qed.

Lemma hasUnderscore_truthy (x : string) :
  hasUnderscore x = true -> truthy x = true.
Proof. destruct x; [discriminate | reflexivity]. Qed.

(** The cascade of [displayTitleFor] on its four inputs. *)
Lemma displayTitle_cascade (recT metaT : string) (h u : option string) :
  (if truthy recT && hasUnderscore recT then Cloud.cleanFileDisplay recT
   else if truthy metaT && hasUnderscore metaT
   then Cloud.cleanFileDisplay metaT
   else
     let fromUrl := optOr (optOrOpt h u) "" in
     let base := optOr (pop (splitOn isSlash fromUrl)) "" in
     if truthy fromUrl && hasUnderscore base then Cloud.cleanFileDisplay base
     else strOr (strOr metaT recT) "Untitled")
  = match
      List.find hasUnderscore
        [recT; metaT; lastSegment (firstNonEmpty [h; u] "")]
    with
    | Some name => Cloud.cleanFileDisplay name
    | None => firstNonEmpty [Some metaT; Some recT] "Untitled"
    end.
Proof.
  cbv zeta. cbn [List.find].
  destruct (hasUnderscore recT) eqn:H1.
  { rewrite (hasUnderscore_truthy _ H1). reflexivity. }
  rewrite andb_false_r.
  destruct (hasUnderscore metaT) eqn:H2.
  { rewrite (hasUnderscore_truthy _ H2). reflexivity. }
  rewrite andb_false_r.
  assert (Href : optOr (optOrOpt h u) "" = firstNonEmpty [h; u] "").
  { destruct h as [x|]; destruct u as [y|]; cbn; try reflexivity;
      destruct (truthy x) eqn:Hx; cbn; rewrite ?Hx; try reflexivity;
      unfold strOr; rewrite ?Hx; reflexivity. }
  rewrite Href. unfold lastSegment.
  set (ref := firstNonEmpty [h; u] "").
  destruct (hasUnderscore (optOr (pop (splitOn isSlash ref)) "")) eqn:H3.
  - assert (Ht : truthy ref = true)
      by (destruct ref; [discriminate H3 | reflexivity]).
    rewrite Ht. reflexivity.
  - rewrite andb_false_r. cbn [firstNonEmpty]. unfold strOr.
    destruct (truthy metaT) eqn:Hm; [rewrite Hm; reflexivity|].
    destruct (truthy recT) eqn:Hr; rewrite ?Hr; reflexivity.
Qed.

(** The title [displayTitleFor] decides on is the shown title. *)
Lemma displayTitleFor_shownTitle (byId : gmap string Cloud.FullRecord.t)
  (meta : Cloud.Doc.t) :
  Cloud.displayTitleFor byId meta = shownTitle byId meta.
Proof.
  unfold Cloud.displayTitleFor, shownTitle, recordTitle, shownFile,
    Cloud.recTitle, Cloud.recOpt. cbv zeta.
  destruct (byId !! identKey (Cloud.Doc.id meta)) as [r|].
  - cbn [option_map optOr]. rewrite !strOr_empty.
    rewrite <- displayTitle_cascade. cbv zeta.
    destruct (Cloud.FullRecord.hires r) as [[|h hs]|]; reflexivity.
  - rewrite <- displayTitle_cascade. reflexivity.
Qed.

Lemma matchesQuery_iff (byId : gmap string Cloud.FullRecord.t)
  (meta : Cloud.Doc.t) (query : string) :
  Cloud.matchesQuery byId meta query = true <-> cloudTextSpec byId meta query.
Proof.
  rewrite matchesQuery_fields. unfold cloudTextSpec.
  rewrite displayTitleFor_shownTitle. reflexivity.
Qed.

(** C5 as the specification words it fails on the cloud page: the title a
    query is matched against there is the shown title, not the title of
    the document.  The document built for an item titled "Plain", whose
    source-B record names the scan [2020_a_b_Big-March.jpg], is shown as
    "Big March": the query [plain], a substring of its title, does not
    match it, and the query [march], a substring of none of its title,
    description and tags, does. *)
Lemma cloud_text_title_counterexample :
  let meta := Cloud.buildDoc plainTable plainItem in
  Cloud.Doc.title meta = "Plain"
  /\ shownTitle plainTable meta = "Big March"
  /\ cloudTextClaim plainTable meta "plain"
  /\ Cloud.matchesQuery plainTable meta "plain" = false
  /\ ~ cloudTextClaim plainTable meta "march"
  /\ Cloud.matchesQuery plainTable meta "march" = true.
Proof.
  cbv zeta.
  split; [vm_compute; reflexivity|].
  split; [vm_compute; reflexivity|].
  split; [|split; [vm_compute; reflexivity|split; [|vm_compute; reflexivity]]].
  - right. change (tokensOf "plain") with ["plain"].
    constructor; [|constructor].
    change (tagValue "plain") with (@None string). cbv iota.
    left. exists "", "". reflexivity.
  - intros [H | H]; [discriminate H|].
    change (tokensOf "march") with ["march"] in H.
    apply List.Forall_cons_iff in H as [H _].
    change (tagValue "march") with (@None string) in H. cbv iota in H.
    apply tokenInFields_iff, existsb_hay in H. vm_compute in H.
    discriminate H.
Qed.

(** C5, as the scripts have it.  A query that is empty or
    white-space-only passes.  Otherwise the query is split on white space
    into tokens, and the document passes exactly when every token is a
    case-insensitive substring of the title, of the description, or of at
    least one tag.  On the search page these are the title, the
    description and the tags of the document.  On the cloud page the
    title is the shown title (a cleaned filename when the source-B title,
    the title of the document or the name of the file the document is
    shown from holds an underscore), the tags are the combined tags of
    the document and of its source-B record, and a token of the form
    [tag:<value>] asks instead that the value be a member of the combined
    tags, case ignored. *)
Theorem text_predicate :
  (forall (d : Doc.t) (query : string),
      matchesText d query = true <-> searchTextSpec d query)
  /\ (forall (byId : gmap string Cloud.FullRecord.t) (meta : Cloud.Doc.t)
        (query : string),
         Cloud.matchesQuery byId meta query = true
         <-> cloudTextSpec byId meta query).
Proof. split; [exact matchesText_iff | exact matchesQuery_iff]. Qed.

(** ** Filter predicates: source-B tags in the cloud query *)

Lemma displayTitleFor_withoutTags (byId : gmap string Cloud.FullRecord.t)
  (meta : Cloud.Doc.t) :
  Cloud.displayTitleFor (withoutTags byId) meta = Cloud.displayTitleFor byId meta.
Proof.
  unfold Cloud.displayTitleFor, withoutTags. rewrite lookup_fmap.
  destruct (byId !! identKey (Cloud.Doc.id meta)) as [r|]; reflexivity.
Qed.

Lemma combinedTags_withoutTags (byId : gmap string Cloud.FullRecord.t)
  (meta : Cloud.Doc.t) :
  combinedTags (withoutTags byId) meta = default [] (Cloud.Doc.tags meta).
Proof.
  rewrite combinedTags_eq. unfold withoutTags. rewrite lookup_fmap.
  destruct (byId !! identKey (Cloud.Doc.id meta)) as [r|]; simpl;
    apply app_nil_r.
Qed.

(** The builder copies a non-empty source-B tag list as it is. *)
Lemma buildDoc_tags (byId : gmap string Cloud.FullRecord.t)
  (it : Cloud.CloudItem.t) :
  let d := Cloud.buildDoc byId it in
  let recTags := Cloud.recTags (byId !! identKey (Cloud.Doc.id d)) in
  recTags = [] \/ Cloud.Doc.tags d = Some recTags.
Proof.
  simpl. unfold Cloud.recTags, Cloud.recOpt.
  destruct (byId !! identKey (Cloud.CloudItem.id it)) as [r|]; simpl;
    [|left; reflexivity].
  destruct (Cloud.FullRecord.tags r) as [[|t ts]|]; simpl; auto.
Qed.

Lemma buildDoc_query_ignores_record_tags
  (byId : gmap string Cloud.FullRecord.t) (it : Cloud.CloudItem.t)
  (query : string) :
  Cloud.matchesQuery byId (Cloud.buildDoc byId it) query
  = Cloud.matchesQuery (withoutTags byId) (Cloud.buildDoc byId it) query.
Proof.
  apply eq_true_iff_eq. rewrite !matchesQuery_fields.
  rewrite displayTitleFor_withoutTags, combinedTags_withoutTags.
  assert (Hex : forall P : string -> Prop,
             Exists P (combinedTags byId (Cloud.buildDoc byId it))
             <-> Exists P (default [] (Cloud.Doc.tags (Cloud.buildDoc byId it)))).
  { intros P. rewrite combinedTags_eq.
    destruct (buildDoc_tags byId it) as [Hnil | Hsome]; cbv zeta in *.
    - rewrite Hnil, app_nil_r. reflexivity.
    - rewrite Hsome. simpl default. apply Exists_app_same. }
  apply or_iff_compat_l. rewrite !List.Forall_forall.
  split; intros H tok Hin; specialize (H tok Hin);
    destruct (tagValue tok); unfold ciMember, tokenInFields in *;
    rewrite ?Hex in *; exact H.
Qed.

(** No document the cloud builder makes lacks a tag of its source-B
    record: there is no coercion on this page, and a non-empty source-B
    tag list is the tag list of the document. *)
Lemma built_doc_excluded_tag_counterexample :
  ~ (exists (cloud : list Cloud.CloudItem.t)
       (byId : gmap string Cloud.FullRecord.t) (d : Cloud.Doc.t) (t : string),
        In d (Cloud.buildDocsFromData cloud byId)
        /\ In t (Cloud.recTags (byId !! identKey (Cloud.Doc.id d)))
        /\ ~ In t (default [] (Cloud.Doc.tags d))).
Proof.
  intros (cloud & byId & d & t & Hd & Ht & Hnot).
  unfold Cloud.buildDocsFromData in Hd.
  apply in_map_iff in Hd as (it & <- & _).
  destruct (buildDoc_tags byId it) as [Hnil | Hsome]; cbv zeta in *.
  - rewrite Hnil in Ht. destruct Ht.
  - rewrite Hsome in Hnot. apply Hnot, Ht.
Qed.

(** C10, as the script has it.  [matchesQuery] reads the tag list of the
    source-B record besides the tag list of the document: a document value
    that lacks a tag of its record matches a plain token and a [tag:]
    token through that tag alone.  The cloud builder makes no such
    document: every tag of the source-B record is a tag of the built
    document, and on built documents the answer of [matchesQuery] is the
    one it would give without reading the record's tags. *)
Theorem matchesQuery_record_tags :
  (~ In "archive" (default [] (Cloud.Doc.tags looseDoc))
   /\ Cloud.matchesQuery archiveTable looseDoc "archive" = true
   /\ Cloud.matchesQuery archiveTable looseDoc "tag:archive" = true
   /\ Cloud.matchesQuery (withoutTags archiveTable) looseDoc "archive" = false
   /\ Cloud.matchesQuery (withoutTags archiveTable) looseDoc "tag:archive"
      = false)
  /\ (forall (cloud : list Cloud.CloudItem.t)
        (byId : gmap string Cloud.FullRecord.t),
         Forall
           (fun d =>
              (forall t,
                  In t (Cloud.recTags (byId !! identKey (Cloud.Doc.id d))) ->
                  In t (default [] (Cloud.Doc.tags d)))
              /\ (forall query,
                     Cloud.matchesQuery byId d query
                     = Cloud.matchesQuery (withoutTags byId) d query))
           (Cloud.buildDocsFromData cloud byId)).
Proof.
  split.
  - split; [|repeat split; vm_compute; reflexivity].
    simpl. intros [H | []]. discriminate.
  - intros cloud byId. rewrite List.Forall_forall. intros d Hd.
    unfold Cloud.buildDocsFromData in Hd.
    apply in_map_iff in Hd as (it & <- & _). split.
    + intros t Ht.
      destruct (buildDoc_tags byId it) as [Hnil | Hsome]; cbv zeta in *.
      * rewrite Hnil in Ht. destruct Ht.
      * rewrite Hsome. exact Ht.
    + intros query. apply buildDoc_query_ignores_record_tags.
Qed.

(** ** Filter predicates: eras *)

Lemma matchesEra_unfold (st : State) (d : Doc.t) :
  matchesEra st d =
  match activeEra st, Doc.year d with
  | None, _ => true
  | Some k, Some y => (fst (PERIODS k) <=? y) && (y <=? snd (PERIODS k))
  | Some _, None => false
  end.
Proof.
  unfold matchesEra. destruct (activeEra st) as [k|]; [|reflexivity].
  destruct k, (Doc.year d); reflexivity.
Qed.

(** C6. With an active era [k]: a document of year 1959 matches exactly
    when [k] is [precursors] (so not under [thick]), one of year 1960
    exactly when [k] is [thick] (so not under [precursors]), one of year
    2100 exactly when [k] is [today]; a document of year 2101 and a
    document without a year match under no era; and no document matches
    under two different eras. *)
Theorem era_boundaries (st : State) (d : Doc.t) (k : EraKey) :
  activeEra st = Some k ->
  (Doc.year d = Some 1959 -> (matchesEra st d = true <-> k = precursors))
  /\ (Doc.year d = Some 1960 -> (matchesEra st d = true <-> k = thick))
  /\ (Doc.year d = Some 2100 -> (matchesEra st d = true <-> k = today))
  /\ (Doc.year d = Some 2101 -> matchesEra st d = false)
  /\ (Doc.year d = None -> matchesEra st d = false)
  /\ (forall st' k', activeEra st' = Some k' ->
        matchesEra st d = true -> matchesEra st' d = true -> k = k').
Proof.
  intros Hk. rewrite matchesEra_unfold, Hk.
  split; [|split; [|split; [|split; [|split]]]].
  - intros ->. destruct k; vm_compute; split; congruence.
  - intros ->. destruct k; vm_compute; split; congruence.
  - intros ->. destruct k; vm_compute; split; congruence.
  - intros ->. destruct k; reflexivity.
  - intros ->. reflexivity.
  - intros st' k' Hk'. rewrite matchesEra_unfold, Hk'.
    destruct (Doc.year d) as [y|]; [|discriminate].
    destruct k, k'; simpl; try reflexivity; intros H1 H2;
      apply andb_true_iff in H1 as [H1a H1b];
      apply andb_true_iff in H2 as [H2a H2b]; lia.
Qed.

Lemma era_boundaries_witness :
  matchesEra (eraState precursors) (sampleDoc (Some 1959)) = true
  /\ matchesEra (eraState thick) (sampleDoc (Some 1960)) = true
  /\ matchesEra (eraState today) (sampleDoc (Some 2100)) = true
  /\ matchesEra (eraState today) (sampleDoc (Some 2101)) = false
  /\ matchesEra (eraState thick) (sampleDoc None) = false.
Proof.
  split; [|split; [|split; [|split]]].
  - destruct (era_boundaries (eraState precursors) (sampleDoc (Some 1959))
                precursors eq_refl) as (H & _).
    apply (H eq_refl). reflexivity.
  - destruct (era_boundaries (eraState thick) (sampleDoc (Some 1960))
                thick eq_refl) as (_ & H & _).
    apply (H eq_refl). reflexivity.
  - destruct (era_boundaries (eraState today) (sampleDoc (Some 2100))
                today eq_refl) as (_ & _ & H & _).
    apply (H eq_refl). reflexivity.
  - destruct (era_boundaries (eraState today) (sampleDoc (Some 2101))
                today eq_refl) as (_ & _ & _ & H & _).
    apply (H eq_refl).
  - destruct (era_boundaries (eraState thick) (sampleDoc None)
                thick eq_refl) as (_ & _ & _ & _ & H & _).
    apply (H eq_refl).
Defined.

(** ** Sort and rank: relevance *)

(** A query of one space is not empty and is a substring of the title
    ["Strike Committee"], yet scores 0, not 5. *)
Lemma scoreRelevance_space_counterexample :
  " " <> ""
  /\ includes (toLowerCase (Doc.title spacedDoc)) (toLowerCase " ") = true
  /\ scoreRelevance spacedDoc " " = 0
  /\ scoreRelevance spacedDoc " " <> 5.
Proof. repeat split; vm_compute; congruence. Qed.

(** C7, as the script has it.  For every document and every query that is
    neither empty nor made of white space only, the score is 5 if the full
    lowercased query is a substring of the lowercased title, plus 2 if it
    is a substring of the lowercased description, plus 1 for every tag
    whose lowercased form contains it, with no cap; an empty or
    white-space-only query scores 0.  The query ["strike"] against a
    document titled ["Strike Committee"] whose description contains
    ["strike"] and whose tags are [["strike"; "labor"]] scores 8. *)
Theorem scoreRelevance_additive :
  (forall (d : Doc.t) (query : string),
      scoreRelevance d query =
      if sall isWhiteSpace query then 0
      else
        let ql := toLowerCase query in
        (if includes (toLowerCase (Doc.title d)) ql then 5 else 0)
        + (if includes (toLowerCase (optOr (Doc.description d) "")) ql
           then 2 else 0)
        + Z.of_nat
            (List.length
               (List.filter (fun t => includes (toLowerCase t) ql)
                  (Doc.tags d))))
  /\ (forall (d : Doc.t) (description : string),
         Doc.title d = "Strike Committee" ->
         Doc.description d = Some description ->
         isSubstring "strike" (toLowerCase description) ->
         Doc.tags d = ["strike"; "labor"] ->
         scoreRelevance d "strike" = 8)
  /\ (forall d : Doc.t, scoreRelevance d "" = 0).
Proof.
  assert (Hscore : forall (d : Doc.t) (query : string),
             scoreRelevance d query =
             if sall isWhiteSpace query then 0
             else
               let ql := toLowerCase query in
               (if includes (toLowerCase (Doc.title d)) ql then 5 else 0)
               + (if includes (toLowerCase (optOr (Doc.description d) "")) ql
                  then 2 else 0)
               + Z.of_nat
                   (List.length
                      (List.filter (fun t => includes (toLowerCase t) ql)
                         (Doc.tags d)))).
  { intros d query. unfold scoreRelevance. rewrite blank_iff.
    destruct (sall isWhiteSpace query); [reflexivity|].
    cbv zeta. rewrite fold_left_count, strOr_empty.
    destruct (includes _ _), (includes _ _); lia. }
  split; [exact Hscore|]. split; [|reflexivity].
  intros d description Ht Hd Hsub Htags.
  rewrite Hscore, Ht, Hd, Htags. apply includes_iff in Hsub.
  change (toLowerCase "strike") with "strike". cbv zeta. cbn [optOr].
  rewrite strOr_empty, Hsub. reflexivity.
Qed.

Lemma scoreRelevance_additive_witness : scoreRelevance strikeDoc "strike" = 8.
Proof.
  apply (proj1 (proj2 scoreRelevance_additive) strikeDoc
           "Minutes of the strike committee");
    [reflexivity | reflexivity | | reflexivity].
  exists "minutes of the ", " committee". reflexivity.
Defined.

(** ** Sort and rank: ordering by year *)

(** X22. The sibling mode: under [year-desc] a missing year is read as -1, and
    a document without a year goes after every document with a year that
    is not negative. *)
Lemma year_desc_null_year_last (localeCompare : string -> string -> Z)
  (st : State) (a b : Doc.t) (y : Z) :
  sortValue st = "year-desc" ->
  Doc.year a = Some y -> 0 <= y -> Doc.year b = None ->
  sort (compareDocs localeCompare st) [a; b] = [a; b]
  /\ sort (compareDocs localeCompare st) [b; a] = [a; b].
Proof.
  intros Hs Ha Hy Hb.
  assert (Hab : compareDocs localeCompare st a b = -1 - y)
    by (unfold compareDocs; rewrite Hs, Ha, Hb; reflexivity).
  assert (Hba : compareDocs localeCompare st b a = y - -1)
    by (unfold compareDocs; rewrite Hs, Ha, Hb; reflexivity).
  split; unfold sort; simpl; rewrite ?Hab, ?Hba.
  - destruct (Z.leb_spec (-1 - y) 0); [reflexivity | lia].
  - destruct (Z.leb_spec (y - -1) 0); [lia | reflexivity].
Qed.

(** C2. Under [year-asc] the comparator reads a missing year as 1: a
    document with a year above 1 compares greater than a document without
    a year, and [sort] puts the document without a year first, whichever
    came first in the input. *)
Theorem year_asc_null_year_first (localeCompare : string -> string -> Z)
  (st : State) (a b : Doc.t) (y : Z) :
  sortValue st = "year-asc" ->
  Doc.year a = Some y -> 1 < y -> Doc.year b = None ->
  compareDocs localeCompare st a b = y - 1
  /\ compareDocs localeCompare st b a = 1 - y
  /\ sort (compareDocs localeCompare st) [a; b] = [b; a]
  /\ sort (compareDocs localeCompare st) [b; a] = [b; a].
Proof.
  intros Hs Ha Hy Hb.
  assert (Hab : compareDocs localeCompare st a b = y - 1)
    by (unfold compareDocs; rewrite Hs, Ha, Hb; reflexivity).
  assert (Hba : compareDocs localeCompare st b a = 1 - y)
    by (unfold compareDocs; rewrite Hs, Ha, Hb; reflexivity).
  repeat split; auto; unfold sort; simpl; rewrite ?Hab, ?Hba.
  - destruct (Z.leb_spec (y - 1) 0); [lia | reflexivity].
  - destruct (Z.leb_spec (1 - y) 0); [reflexivity | lia].
Qed.

Lemma year_asc_null_year_first_witness :
  fst (applyFilters (fun _ _ => 0) yearAscState
         [sampleDoc (Some 1968); sampleDoc None])
  = [sampleDoc None; sampleDoc (Some 1968)].
Proof.
  change (sort (compareDocs (fun _ _ => 0) yearAscState)
            [sampleDoc (Some 1968); sampleDoc None]
          = [sampleDoc None; sampleDoc (Some 1968)]).
  apply (year_asc_null_year_first (fun _ _ => 0) yearAscState
           (sampleDoc (Some 1968)) (sampleDoc None) 1968);
    [reflexivity | reflexivity | lia | reflexivity].
Defined.

(** ** Query-state codec *)
































(** C9. [syncParams] writes the state
    [{q:"strike", tags:["a","b"], era:"thick", sort:"year-desc"}] as
    [q=strike&tags=a%2Cb&era=thick&sort=year-desc], and [readParams] on
    that query string, from the initial state, gives back the same query,
    the same set of active tags, the same era and the same sort mode. *)
Theorem codec_roundtrip_strike (docs : list Doc.t) :
  queryString (syncParams strikeState docs)
  = "q=strike&tags=a%2Cb&era=thick&sort=year-desc"
  /\ exists s',
      readParams (locationSearch (syncParams strikeState docs)) initialState
      = Some s'
      /\ q s' = q strikeState
      /\ (forall t, In t (activeTags s') <-> In t (activeTags strikeState))
      /\ activeEra s' = activeEra strikeState
      /\ sortValue s' = sortValue strikeState.
Proof.
  split; [vm_compute; reflexivity|].
  exists strikeState. split; [vm_compute; reflexivity|].
  repeat split; auto.
Qed.

(** ** Further properties: the tag and era predicates *)

(** X1. [matchesTags] has AND semantics with case-insensitive exact
    match: a document passes exactly when every active tag equals, case
    ignored, one of its tags; with no active tag every document passes. *)
Theorem matchesTags_iff (st : State) (d : Doc.t) :
  matchesTags st d = true
  <-> Forall (fun t => ciMember t (Doc.tags d)) (activeTags st).
Proof.
  unfold matchesTags. destruct (activeTags st) as [|t ts] eqn:Hts.
  - simpl. split; [constructor | reflexivity].
  - cbn [List.length Nat.eqb]. rewrite forallb_forall, List.Forall_forall.
    split; intros H x Hx; apply tagPool_has, H, Hx.
Qed.

(** X2. Between integer years the eras leave no gap: a document whose
    year is an integer matches some era exactly when the year lies in
    1940..2100, whatever the rest of the state.  (The ranges end and
    begin on consecutive integers; a year with a fractional part is not
    among the years here.) *)
Theorem eras_cover_1940_2100 (st : State) (d : Doc.t) (y : Z) :
  Doc.year d = Some y ->
  (1940 <= y <= 2100
   <-> exists k,
        matchesEra (setEra st k) d = true).
Proof.
  intros Hy. split.
  - intros [Hlo Hhi].
    destruct (Z_le_gt_dec y 1959) as [H1 | H1];
      [exists precursors | destruct (Z_le_gt_dec y 1989) as [H2 | H2];
                            [exists thick | exists today]];
      rewrite matchesEra_unfold; cbn [setEra activeEra]; rewrite Hy;
      cbn [PERIODS fst snd]; apply andb_true_iff; split; apply Z.leb_le; lia.
  - intros (k & Hk). rewrite matchesEra_unfold in Hk.
    cbn [setEra activeEra] in Hk. rewrite Hy in Hk.
    apply andb_true_iff in Hk as [Ha Hb].
    apply Z.leb_le in Ha. apply Z.leb_le in Hb.
    destruct k; cbn [PERIODS fst snd] in *; lia.
Qed.

Lemma eras_cover_1940_2100_witness :
  exists k, matchesEra (setEra initialState k) (sampleDoc (Some 1989)) = true.
Proof.
  apply (eras_cover_1940_2100 initialState (sampleDoc (Some 1989)) 1989 eq_refl).
  lia.
Defined.

(** ** Further properties: [applyFilters] *)

Lemma numericYear_yearValue (y : option Z) : numericYear (yearValue y) = y.
Proof. destruct y; reflexivity. Qed.

Lemma StronglySorted_weaken {A} (R R' : A -> A -> Prop) (l : list A) :
  (forall a b, R a b -> R' a b) -> StronglySorted R l -> StronglySorted R' l.
Proof.
  intros H. induction 1 as [|x l Hl IH Hx]; constructor; [exact IH|].
  eapply List.Forall_impl; [|exact Hx]. intros b. apply H.
Qed.

Lemma sort_sorted_id {A} (cmp : A -> A -> Z) (l : list A) :
  StronglySorted (notAfter cmp) l -> sort cmp l = l.
Proof.
  induction 1 as [|x l Hl IH Hx]; [reflexivity|].
  cbn [sort fold_right]. fold (sort cmp l). rewrite IH.
  destruct Hx as [|y l' Hy _]; [reflexivity|].
  cbn [insertSorted]. unfold notAfter in Hy.
  destruct (Z.leb_spec (cmp x y) 0); [reflexivity | lia].
Qed.

Lemma keyed_consistent {A} (f : A -> Z) : Consistent (fun a b => f a - f b).
Proof. split; intros; lia. Qed.

Lemma compareDocs_mode (localeCompare : string -> string -> Z) (st : State)
  (a b : Doc.t) :
  compareDocs localeCompare st a b =
  if String.eqb (sortValue st) "year-desc"
  then yearKey (-1) b - yearKey (-1) a
  else if String.eqb (sortValue st) "year-asc"
  then yearKey 1 a - yearKey 1 b
  else if String.eqb (sortValue st) "title-asc"
  then localeCompare (Doc.title a) (Doc.title b)
  else scoreRelevance b (q st) - scoreRelevance a (q st).
Proof.
  unfold compareDocs, yearKey. rewrite !numericYear_yearValue, !strOr_empty.
  reflexivity.
Qed.

Lemma compareDocs_consistent (localeCompare : string -> string -> Z)
  (st : State) :
  (sortValue st = "title-asc" -> Consistent localeCompare) ->
  Consistent (compareDocs localeCompare st).
Proof.
  intros Hlc.
  assert (Hext : forall cmp : Doc.t -> Doc.t -> Z,
             (forall a b, compareDocs localeCompare st a b = cmp a b) ->
             Consistent cmp -> Consistent (compareDocs localeCompare st)).
  { intros cmp He [H1 H2]. split.
    - intros a b. rewrite !He. apply H1.
    - intros a b c. rewrite !He. apply H2. }
  destruct (String.eqb (sortValue st) "year-desc") eqn:E1.
  { apply (Hext (fun a b => - yearKey (-1) a - - yearKey (-1) b));
      [|apply keyed_consistent].
    intros a b. rewrite compareDocs_mode, E1. lia. }
  destruct (String.eqb (sortValue st) "year-asc") eqn:E2.
  { apply (Hext (fun a b => yearKey 1 a - yearKey 1 b));
      [|apply keyed_consistent].
    intros a b. rewrite compareDocs_mode, E1, E2. reflexivity. }
  destruct (String.eqb (sortValue st) "title-asc") eqn:E3.
  { destruct (Hlc (proj1 (String.eqb_eq _ _) E3)) as [H1 H2].
    apply (Hext (fun a b => localeCompare (Doc.title a) (Doc.title b))).
    - intros a b. rewrite compareDocs_mode, E1, E2, E3. reflexivity.
    - split; intros; eauto. }
  apply (Hext (fun a b => - scoreRelevance a (q st) - - scoreRelevance b (q st)));
    [|apply keyed_consistent].
  intros a b. rewrite compareDocs_mode, E1, E2, E3. lia.
Qed.

Lemma applyFilters_fst (localeCompare : string -> string -> Z) (st : State)
  (DOCS : list Doc.t) :
  fst (applyFilters localeCompare st DOCS)
  = sort (compareDocs localeCompare st) (List.filter (passes st) DOCS).
Proof. reflexivity. Qed.

Lemma filter_all {A} (p : A -> bool) (l : list A) :
  Forall (fun x => p x = true) l -> List.filter p l = l.
Proof.
  induction 1 as [|x l Hx Hl IH]; simpl; [reflexivity|].
  rewrite Hx, IH. reflexivity.
Qed.

(** X3. [applyFilters] shows exactly the documents that pass the three
    tests: the result is a rearrangement of the passing documents, each as
    often as it occurs in [DOCS], and nothing else. *)
Theorem applyFilters_selects (localeCompare : string -> string -> Z)
  (st : State) (DOCS : list Doc.t) :
  Permutation (List.filter (passes st) DOCS)
    (fst (applyFilters localeCompare st DOCS))
  /\ (forall d,
         In d (fst (applyFilters localeCompare st DOCS))
         <-> In d DOCS /\ matchesText d (q st) = true
             /\ matchesTags st d = true /\ matchesEra st d = true)
  /\ (List.length (fst (applyFilters localeCompare st DOCS))
      <= List.length DOCS)%nat.
Proof.
  rewrite applyFilters_fst.
  pose proof (sort_perm (compareDocs localeCompare st)
                (List.filter (passes st) DOCS)) as Hp.
  split; [exact Hp|]. split.
  - intros d. split.
    + intros H. eapply Permutation_in in H; [|symmetry; exact Hp].
      apply filter_In in H as [Hin Hpass]. unfold passes in Hpass.
      apply andb_true_iff in Hpass as [Hpass He].
      apply andb_true_iff in Hpass as [Ht Hg]. auto.
    + intros (Hin & Ht & Hg & He). eapply Permutation_in; [exact Hp|].
      apply filter_In. split; [exact Hin|]. unfold passes.
      rewrite Ht, Hg, He. reflexivity.
  - rewrite <- (Permutation_length Hp). apply List.filter_length_le.
Qed.

(** X4. The result of [applyFilters] is in the order of the selected
    mode: by year downwards with a missing year read as -1, by year
    upwards with a missing year read as 1, by title under a consistent
    [localeCompare], and under any other selector value by relevance
    score downwards. *)
Theorem applyFilters_sorted (localeCompare : string -> string -> Z)
  (st : State) (DOCS : list Doc.t) :
  (sortValue st = "title-asc" -> Consistent localeCompare) ->
  let r := fst (applyFilters localeCompare st DOCS) in
  (sortValue st = "year-desc" ->
   StronglySorted (fun a b => yearKey (-1) b <= yearKey (-1) a) r)
  /\ (sortValue st = "year-asc" ->
      StronglySorted (fun a b => yearKey 1 a <= yearKey 1 b) r)
  /\ (sortValue st = "title-asc" ->
      StronglySorted
        (fun a b => localeCompare (Doc.title a) (Doc.title b) <= 0) r)
  /\ (~ In (sortValue st) namedModes ->
      StronglySorted
        (fun a b => scoreRelevance b (q st) <= scoreRelevance a (q st)) r).
Proof.
  intros Hlc r.
  assert (Hs : StronglySorted (notAfter (compareDocs localeCompare st)) r).
  { apply sort_sorted, compareDocs_consistent, Hlc. }
  repeat split; intros Hm; eapply StronglySorted_weaken; try exact Hs;
    intros a b; unfold notAfter; rewrite compareDocs_mode.
  - rewrite Hm. cbn. lia.
  - rewrite Hm. cbn. lia.
  - rewrite Hm. cbn. auto.
  - destruct (String.eqb_spec (sortValue st) "year-desc") as [E|_];
      [exfalso; apply Hm; rewrite E; simpl; auto|].
    destruct (String.eqb_spec (sortValue st) "year-asc") as [E|_];
      [exfalso; apply Hm; rewrite E; simpl; auto|].
    destruct (String.eqb_spec (sortValue st) "title-asc") as [E|_];
      [exfalso; apply Hm; rewrite E; simpl; auto|].
    lia.
Qed.

Lemma applyFilters_sorted_witness :
  StronglySorted (fun a b => yearKey 1 a <= yearKey 1 b)
    (fst (applyFilters codeUnitCompare yearAscState
            [sampleDoc (Some 1968); sampleDoc None; sampleDoc (Some 1941)])).
Proof.
  refine (proj1 (proj2 (applyFilters_sorted codeUnitCompare yearAscState
            [sampleDoc (Some 1968); sampleDoc None; sampleDoc (Some 1941)]
            _)) eq_refl).
  intros _. exact codeUnitCompare_consistent.
Defined.

(** X5. Filtering again changes nothing: [applyFilters] run on its own
    result returns that result, in the same order. *)
Theorem applyFilters_idempotent (localeCompare : string -> string -> Z)
  (st : State) (DOCS : list Doc.t) :
  (sortValue st = "title-asc" -> Consistent localeCompare) ->
  fst (applyFilters localeCompare st
         (fst (applyFilters localeCompare st DOCS)))
  = fst (applyFilters localeCompare st DOCS).
Proof.
  intros Hlc. rewrite !applyFilters_fst.
  set (r := sort (compareDocs localeCompare st) (List.filter (passes st) DOCS)).
  assert (Hall : Forall (fun d => passes st d = true) r).
  { apply List.Forall_forall. intros d Hd.
    eapply Permutation_in in Hd; [|symmetry; apply sort_perm].
    apply filter_In in Hd as [_ Hd]. exact Hd. }
  rewrite (filter_all _ _ Hall). apply sort_sorted_id.
  apply sort_sorted, compareDocs_consistent, Hlc.
Qed.

Lemma applyFilters_idempotent_witness :
  fst (applyFilters codeUnitCompare yearAscState
         (fst (applyFilters codeUnitCompare yearAscState
                 [sampleDoc (Some 1968); sampleDoc None])))
  = fst (applyFilters codeUnitCompare yearAscState
           [sampleDoc (Some 1968); sampleDoc None]).
Proof.
  apply applyFilters_idempotent. intros _. exact codeUnitCompare_consistent.
Defined.

(** X6. With an empty or white-space-only query, sorting by relevance
    leaves the passing documents in the order of [DOCS]: every score is 0
    and the sort keeps ties in place. *)
Theorem applyFilters_blank_relevance (localeCompare : string -> string -> Z)
  (st : State) (DOCS : list Doc.t) :
  sall isWhiteSpace (q st) = true -> ~ In (sortValue st) namedModes ->
  fst (applyFilters localeCompare st DOCS) = List.filter (passes st) DOCS.
Proof.
  intros Hq Hm. rewrite applyFilters_fst. apply sort_sorted_id.
  assert (Hzero : forall a b, compareDocs localeCompare st a b = 0).
  { intros a b. rewrite compareDocs_mode.
    destruct (String.eqb_spec (sortValue st) "year-desc") as [E|_];
      [exfalso; apply Hm; rewrite E; simpl; auto|].
    destruct (String.eqb_spec (sortValue st) "year-asc") as [E|_];
      [exfalso; apply Hm; rewrite E; simpl; auto|].
    destruct (String.eqb_spec (sortValue st) "title-asc") as [E|_];
      [exfalso; apply Hm; rewrite E; simpl; auto|].
    unfold scoreRelevance. rewrite blank_iff, Hq. reflexivity. }
  induction (List.filter (passes st) DOCS) as [|x l IH]; constructor;
    [exact IH|].
  apply List.Forall_forall. intros y _. unfold notAfter. rewrite Hzero. lia.
Qed.

Lemma applyFilters_blank_relevance_witness :
  fst (applyFilters codeUnitCompare initialState
         [sampleDoc (Some 1968); sampleDoc None; sampleDoc (Some 1941)])
  = [sampleDoc (Some 1968); sampleDoc None; sampleDoc (Some 1941)].
Proof.
  apply (applyFilters_blank_relevance codeUnitCompare initialState
           [sampleDoc (Some 1968); sampleDoc None; sampleDoc (Some 1941)]).
  - reflexivity.
  - simpl. intros [H | [H | [H | []]]]; discriminate.
Defined.

(** ** Further properties: the query-string codec *)

Lemma splitOn_segments (sep : ascii -> bool) (s : string) :
  Forall (fun w => sall (fun c => negb (sep c)) w = true) (splitOn sep s).
Proof.
  induction s as [|c s IH]; simpl.
  - repeat constructor.
  - destruct (sep c) eqn:Hc; [constructor; [reflexivity | exact IH]|].
    destruct (splitOn sep s) as [|w ws].
    + repeat constructor. simpl. rewrite Hc. reflexivity.
    + inversion IH as [|? ? Hw Hws]; subst.
      constructor; [|exact Hws]. simpl. rewrite Hc, Hw. reflexivity.
Qed.











(** ** Further properties: filename cleanup *)

Lemma trimStart_startsClean (s : string) : startsClean (trimStart s) = true.
Proof.
  induction s as [|c s IH]; [reflexivity|]. simpl.
  destruct (isWhiteSpace c) eqn:Hc; [exact IH|]. simpl. rewrite Hc. reflexivity.
Qed.

Lemma trimStart_clean (s : string) : startsClean s = true -> trimStart s = s.
Proof.
  destruct s as [|c s]; [reflexivity|]. simpl. intros H.
  apply negb_true_iff in H. rewrite H. reflexivity.
Qed.

Lemma trimEnd_cons (c : ascii) (s : string) :
  trimEnd (String c s) =
  match trimEnd s with
  | EmptyString => if isWhiteSpace c then EmptyString else String c EmptyString
  | t => String c t
  end.
Proof. reflexivity. Qed.

Lemma trimEnd_startsClean (s : string) :
  startsClean s = true -> startsClean (trimEnd s) = true.
Proof.
  destruct s as [|c s]; [reflexivity|]. intros H. rewrite trimEnd_cons.
  simpl in H. apply negb_true_iff in H.
  destruct (trimEnd s); rewrite ?H; simpl; rewrite ?H; reflexivity.
Qed.

Lemma trimEnd_idempotent (s : string) : trimEnd (trimEnd s) = trimEnd s.
Proof.
  induction s as [|c s IH]; [reflexivity|]. rewrite trimEnd_cons.
  destruct (trimEnd s) as [|d t] eqn:Ht.
  - destruct (isWhiteSpace c) eqn:Hc; [reflexivity|].
    rewrite trimEnd_cons. simpl. rewrite Hc. reflexivity.
  - rewrite trimEnd_cons, IH. reflexivity.
Qed.

Lemma trim_idempotent (s : string) : trim (trim s) = trim s.
Proof.
  unfold trim.
  rewrite (trimStart_clean (trimEnd (trimStart s))).
  - apply trimEnd_idempotent.
  - apply trimEnd_startsClean, trimStart_startsClean.
Qed.

Section CharInvariant.
Variable ok : ascii -> bool.

Lemma trimStart_sall (s : string) :
  sall ok s = true -> sall ok (trimStart s) = true.
Proof.
  induction s as [|c s IH]; [reflexivity|]. simpl. intros H.
  destruct (isWhiteSpace c); [|exact H].
  apply andb_true_iff in H as [_ H]. apply IH, H.
Qed.

Lemma trimEnd_sall (s : string) :
  sall ok s = true -> sall ok (trimEnd s) = true.
Proof.
  induction s as [|c s IH]; [reflexivity|]. intros H. rewrite trimEnd_cons.
  simpl in H. apply andb_true_iff in H as [Hc Hs]. specialize (IH Hs).
  destruct (trimEnd s) as [|d t].
  - destruct (isWhiteSpace c); [reflexivity|]. simpl. rewrite Hc. reflexivity.
  - cbn [sall] in *. rewrite Hc, IH. reflexivity.
Qed.

Lemma trim_sall (s : string) : sall ok s = true -> sall ok (trim s) = true.
Proof. intros H. apply trimEnd_sall, trimStart_sall, H. Qed.

Lemma replaceRunsFrom_sall (p : ascii -> bool) (r : string) (b : bool)
  (s : string) :
  sall ok r = true ->
  sall (fun c => p c || ok c) s = true ->
  sall ok (replaceRunsFrom p r b s) = true.
Proof.
  intros Hr. revert b. induction s as [|c s IH]; intros b; [reflexivity|].
  simpl. intros H. apply andb_true_iff in H as [Hc Hs].
  destruct (p c) eqn:Hp.
  - destruct b; [apply IH, Hs|]. rewrite sall_app, Hr. apply IH, Hs.
  - simpl in Hc. simpl. rewrite Hc. apply IH, Hs.
Qed.

Lemma join_sall (sep : string) (l : list string) :
  sall ok sep = true -> Forall (fun w => sall ok w = true) l ->
  sall ok (join sep l) = true.
Proof.
  intros Hsep. induction 1 as [|w l Hw Hl IH]; [reflexivity|].
  destruct l as [|w' l']; [exact Hw|].
  change (join sep (w :: w' :: l'))
    with (w ++ sep ++ join sep (w' :: l'))%string.
  rewrite !sall_app, Hw, Hsep, IH. reflexivity.
Qed.
End CharInvariant.

Lemma singleSpaced_weaken (s : string) :
  singleSpaced true s = true -> singleSpaced false s = true.
Proof.
  destruct s as [|c s]; [reflexivity|]. simpl.
  destruct (isWhiteSpace c); [|auto]. rewrite andb_false_r. discriminate.
Qed.

Lemma replaceRunsFrom_singleSpaced (b : bool) (s : string) :
  singleSpaced b (replaceRunsFrom isWhiteSpace " " b s) = true.
Proof.
  revert b. induction s as [|c s IH]; intros b; [reflexivity|]. simpl.
  destruct (isWhiteSpace c) eqn:Hc.
  - destruct b; [apply IH|].
    rewrite append_cons, append_nil_l. simpl. apply IH.
  - simpl. rewrite Hc. apply IH.
Qed.

Lemma trimStart_singleSpaced (b : bool) (s : string) :
  singleSpaced b s = true -> singleSpaced false (trimStart s) = true.
Proof.
  revert b. induction s as [|c s IH]; intros b; [reflexivity|]. simpl.
  destruct (isWhiteSpace c) eqn:Hc.
  - intros H. apply andb_true_iff in H as [_ H]. apply (IH true), H.
  - intros H. simpl. rewrite Hc. exact H.
Qed.

Lemma trimEnd_singleSpaced (b : bool) (s : string) :
  singleSpaced b s = true -> singleSpaced b (trimEnd s) = true.
Proof.
  revert b. induction s as [|c s IH]; intros b; [reflexivity|].
  intros H. rewrite trimEnd_cons. simpl in H.
  destruct (isWhiteSpace c) eqn:Hc.
  - apply andb_true_iff in H as [H1 H2]. specialize (IH true H2).
    destruct (trimEnd s) as [|d t]; [reflexivity|].
    simpl. rewrite Hc. simpl in IH. rewrite H1. exact IH.
  - specialize (IH false H).
    destruct (trimEnd s) as [|d t]; simpl; rewrite Hc; [reflexivity|].
    exact IH.
Qed.

Lemma in_skipn {A} (n : nat) (l : list A) (x : A) :
  In x (skipn n l) -> In x l.
Proof.
  intros H. rewrite <- (firstn_skipn n l). apply in_or_app. right. exact H.
Qed.

Lemma cleanFileDisplay_same (name : string) :
  Cloud.cleanFileDisplay name = Search.cleanFileDisplay name.
Proof. reflexivity. Qed.

Lemma cleanFileDisplay_segments (name : string) :
  Search.cleanFileDisplay name
  = trim (replaceRuns isWhiteSpace " "
            (replaceRuns isHyphen " " (join " " (skipn 3 (fileSegments name))))).
Proof. reflexivity. Qed.

Lemma cleanFileDisplay_chars (name : string) :
  sall notUnderscoreOrHyphen (Search.cleanFileDisplay name) = true.
Proof.
  rewrite cleanFileDisplay_segments.
  apply trim_sall. apply replaceRunsFrom_sall; [reflexivity|].
  apply (sall_weaken notUnderscoreOrHyphen);
    [intros c ->; apply orb_true_r|].
  apply replaceRunsFrom_sall; [reflexivity|].
  apply (sall_weaken (fun c => negb (isUnderscore c))).
  { intros c Hc. unfold notUnderscoreOrHyphen. rewrite Hc.
    destruct (isHyphen c); reflexivity. }
  apply join_sall; [reflexivity|].
  apply List.Forall_forall. intros w Hw.
  pose proof (splitOn_segments isUnderscore
                (stripExtension (fileBase name))) as Hs.
  rewrite List.Forall_forall in Hs. apply Hs.
  apply (in_skipn 3), Hw.
Qed.

Lemma cleanFileDisplay_empty (name : string) :
  (List.length (fileSegments name) <= 3)%nat ->
  Search.cleanFileDisplay name = "".
Proof.
  intros H. rewrite cleanFileDisplay_segments, (skipn_all2 _ H). reflexivity.
Qed.

(** X9. A name with fewer than four underscore-delimited segments cleans
    to the empty string, in both scripts: the first three segments are
    dropped whether or not anything follows them. *)
Theorem cleanFileDisplay_short (name : string) :
  (List.length (fileSegments name) <= 3)%nat ->
  Search.cleanFileDisplay name = "" /\ Cloud.cleanFileDisplay name = "".
Proof.
  intros H. pose proof (cleanFileDisplay_empty name H) as Hs.
  split; [exact Hs | exact Hs].
Qed.

Lemma cleanFileDisplay_short_witness :
  Search.cleanFileDisplay "minutes_1968.pdf" = ""
  /\ Cloud.cleanFileDisplay "minutes_1968.pdf" = "".
Proof.
  apply cleanFileDisplay_short. vm_compute. lia.
Defined.

(** X10. What [cleanFileDisplay] returns is tidy, in both scripts: it
    holds no underscore and no hyphen, it has no white space at either
    end, and inside it white space occurs only as single spaces. *)
Theorem cleanFileDisplay_tidy (name : string) :
  sall notUnderscoreOrHyphen (Search.cleanFileDisplay name) = true
  /\ trim (Search.cleanFileDisplay name) = Search.cleanFileDisplay name
  /\ singleSpaced false (Search.cleanFileDisplay name) = true
  /\ Cloud.cleanFileDisplay name = Search.cleanFileDisplay name.
Proof.
  split; [|split; [|split]]; rewrite ?cleanFileDisplay_segments.
  - rewrite <- cleanFileDisplay_segments. apply cleanFileDisplay_chars.
  - apply trim_idempotent.
  - unfold trim. apply trimEnd_singleSpaced.
    apply (trimStart_singleSpaced false), replaceRunsFrom_singleSpaced.
  - reflexivity.
Qed.

(** ** Further properties: tag coercion *)

Lemma coerceTags_candidates (recTags itemTags topics : value) :
  coerceTags recTags itemTags topics
  = fold_left dedupStep (tagCandidates recTags itemTags topics) [].
Proof. reflexivity. Qed.

Lemma tagCandidates_clean (recTags itemTags topics : value) :
  Forall cleanTag (tagCandidates recTags itemTags topics).
Proof.
  unfold tagCandidates. cbv zeta. apply List.Forall_forall. intros t Ht.
  apply filter_In in Ht as [Ht Hshort]. apply filter_In in Ht as [Ht Hne].
  apply in_map_iff in Ht as (x & <- & _).
  apply andb_true_iff in Hshort as [Hlen Hwords].
  apply Nat.leb_le in Hlen. apply Nat.leb_le in Hwords.
  apply Nat.ltb_lt in Hne.
  repeat split; auto using trim_idempotent.
  intros He. rewrite He in Hne. simpl in Hne. lia.
Qed.

Lemma dedupStep_cases (acc : list string) (x : string) :
  (dedupStep acc x = acc
   /\ exists u, In u acc /\ toLowerCase u = toLowerCase x)
  \/ (dedupStep acc x = (acc ++ [x])%list
      /\ forall u, In u acc -> toLowerCase u <> toLowerCase x).
Proof.
  unfold dedupStep. cbv zeta.
  destruct (existsb (fun y => String.eqb (toLowerCase y) (toLowerCase x)) acc)
    eqn:He.
  - left. split; [reflexivity|].
    apply existsb_exists in He as (u & Hu & Heq).
    apply String.eqb_eq in Heq. eauto.
  - right. split; [reflexivity|]. intros u Hu Heq.
    assert (Ht : existsb (fun y => String.eqb (toLowerCase y) (toLowerCase x))
                   acc = true).
    { apply existsb_exists. exists u. split; [exact Hu|].
      apply String.eqb_eq, Heq. }
    congruence.
Qed.

Lemma dedup_shape (l acc : list string) :
  exists k, fold_left dedupStep l acc = (acc ++ k)%list /\ sublist k l.
Proof.
  revert acc. induction l as [|x l IH]; intros acc.
  - exists []. split; [symmetry; apply app_nil_r | constructor].
  - cbn [fold_left].
    destruct (dedupStep_cases acc x) as [[-> _] | [-> _]].
    + destruct (IH acc) as (k & -> & Hk). exists k.
      split; [reflexivity | apply sublist_cons, Hk].
    + destruct (IH (acc ++ [x])%list) as (k & -> & Hk). exists (x :: k).
      split; [rewrite <- app_assoc; reflexivity | apply sublist_skip, Hk].
Qed.

Lemma dedup_distinct (l acc : list string) :
  List.NoDup (map toLowerCase acc) ->
  List.NoDup (map toLowerCase (fold_left dedupStep l acc)).
Proof.
  revert acc. induction l as [|x l IH]; intros acc Hacc; [exact Hacc|].
  cbn [fold_left]. apply IH.
  destruct (dedupStep_cases acc x) as [[-> _] | [-> Hnew]]; [exact Hacc|].
  rewrite map_app. cbn [map].
  eapply Permutation_NoDup; [apply Permutation_cons_append|].
  constructor; [|exact Hacc].
  intros Hin. apply in_map_iff in Hin as (u & Hu & Hin).
  exact (Hnew u Hin Hu).
Qed.

(** The invariant of the deduplication loop: with [pre] the entries
    already seen, every kept entry is the first of its case-insensitive
    class, and every class seen has its entry. *)
Lemma dedup_first (l pre acc : list string) :
  (forall u, In u acc ->
             exists l1 l2, pre = (l1 ++ u :: l2)%list
                           /\ Forall (fun x => toLowerCase x <> toLowerCase u) l1) ->
  (forall x, In x pre -> exists u, In u acc /\ toLowerCase u = toLowerCase x) ->
  (forall u, In u (fold_left dedupStep l acc) ->
             exists l1 l2, (pre ++ l)%list = (l1 ++ u :: l2)%list
                           /\ Forall (fun x => toLowerCase x <> toLowerCase u) l1)
  /\ (forall x, In x (pre ++ l)%list ->
                exists u, In u (fold_left dedupStep l acc)
                          /\ toLowerCase u = toLowerCase x).
Proof.
  revert pre acc. induction l as [|x l IH]; intros pre acc Hfirst Hcover.
  - rewrite app_nil_r. split; assumption.
  - cbn [fold_left].
    replace (pre ++ x :: l)%list with ((pre ++ [x]) ++ l)%list
      by (rewrite <- app_assoc; reflexivity).
    apply IH.
    + intros u Hu.
      destruct (dedupStep_cases acc x) as [[He _] | [He Hnew]];
        rewrite He in Hu.
      * destruct (Hfirst u Hu) as (l1 & l2 & -> & Hl1).
        exists l1, (l2 ++ [x])%list. split; [|exact Hl1].
        rewrite <- app_assoc. reflexivity.
      * apply in_app_or in Hu as [Hu | [<- | []]].
        -- destruct (Hfirst u Hu) as (l1 & l2 & -> & Hl1).
           exists l1, (l2 ++ [x])%list. split; [|exact Hl1].
           rewrite <- app_assoc. reflexivity.
        -- exists pre, []. split; [reflexivity|].
           apply List.Forall_forall. intros y Hy Heq.
           destruct (Hcover y Hy) as (u & Hu & Huy).
           apply (Hnew u Hu). congruence.
    + intros y Hy. apply in_app_or in Hy as [Hy | [<- | []]].
      * destruct (Hcover y Hy) as (u & Hu & Huy). exists u.
        split; [|exact Huy].
        destruct (dedupStep_cases acc x) as [[-> _] | [-> _]];
          [exact Hu | apply in_or_app; left; exact Hu].
      * destruct (dedupStep_cases acc x) as [[-> (u & Hu & Hux)] | [-> _]].
        -- exists u. split; assumption.
        -- exists x. split; [apply in_or_app; right; left|]; reflexivity.
Qed.

Lemma coerceTags_cleanTags (recTags itemTags topics : value) :
  Forall cleanTag (coerceTags recTags itemTags topics)
  /\ List.NoDup (map toLowerCase (coerceTags recTags itemTags topics)).
Proof.
  rewrite coerceTags_candidates. split.
  - destruct (dedup_shape (tagCandidates recTags itemTags topics) [])
      as (k & -> & Hk).
    pose proof (tagCandidates_clean recTags itemTags topics) as Hc.
    rewrite List.Forall_forall in *. intros t Ht. apply Hc.
    apply list_elem_of_In. eapply elem_of_sublist; [|exact Hk].
    apply list_elem_of_In. exact Ht.
  - apply dedup_distinct. constructor.
Qed.

(** X11. Every tag [coerceTags] returns is trimmed, non-empty, at most
    40 characters long and at most 5 words long, and no two returned tags
    are equal when case is ignored. *)
Theorem coerceTags_clean (recTags itemTags topics : value) :
  Forall cleanTag (coerceTags recTags itemTags topics)
  /\ List.NoDup (map toLowerCase (coerceTags recTags itemTags topics)).
Proof. apply coerceTags_cleanTags. Qed.

(** X12. [coerceTags] keeps the first entry of every case-insensitive
    class, in the order of arrival: each cleaned entry has its returned
    tag equal to it up to case, each returned tag stands in the cleaned
    entries with no entry of its class before it, and the returned tags
    follow the order of the cleaned entries. *)
Theorem coerceTags_first_seen (recTags itemTags topics : value) :
  let cands := tagCandidates recTags itemTags topics in
  let out := coerceTags recTags itemTags topics in
  (forall x, In x cands -> exists u, In u out /\ toLowerCase u = toLowerCase x)
  /\ (forall u, In u out ->
                exists l1 l2,
                  cands = (l1 ++ u :: l2)%list
                  /\ Forall (fun x => toLowerCase x <> toLowerCase u) l1)
  /\ sublist out cands.
Proof.
  cbv zeta. rewrite coerceTags_candidates.
  destruct (dedup_first (tagCandidates recTags itemTags topics) [] [])
    as [Hfirst Hcover].
  { intros u []. }
  { intros x []. }
  split; [exact Hcover|]. split; [exact Hfirst|].
  destruct (dedup_shape (tagCandidates recTags itemTags topics) [])
    as (k & -> & Hk).
  exact Hk.
Qed.

(** ** Further properties: the builders and the result cards *)

Lemma sall_not_sany (p : ascii -> bool) (s : string) :
  sall (fun c => negb (p c)) s = true -> sany p s = false.
Proof.
  induction s as [|c s IH]; [reflexivity|]. simpl. intros H.
  apply andb_true_iff in H as [Hc Hs]. apply negb_true_iff in Hc.
  rewrite Hc, (IH Hs). reflexivity.
Qed.

Lemma cleanFileDisplay_no_underscore (name : string) :
  Search.hasUnderscore (Search.cleanFileDisplay name) = false.
Proof.
  apply sall_not_sany.
  apply (sall_weaken notUnderscoreOrHyphen); [|apply cleanFileDisplay_chars].
  intros c H. unfold notUnderscoreOrHyphen in H.
  apply andb_true_iff in H as [H _]. exact H.
Qed.

Lemma optOrOpt_none_not_empty (a : option string) :
  optOrOpt a None <> Some "".
Proof. destruct a as [[|c s]|]; discriminate. Qed.

Lemma strOr_untitled (s : string) : strOr s "Untitled" <> "".
Proof. destruct s; discriminate. Qed.

(** X13. [buildDocs] makes one document per source-A item, in the order
    of the items, with the identity and the preview reference of the item;
    and in every built document the display title holds no underscore,
    the underlying title is not empty, the url is [null] or a non-empty
    string, and the tags are clean and distinct up to case. *)
Theorem buildDocs_invariants (cloud : list Search.CloudItem.t)
  (byId : gmap string Search.FullRecord.t) :
  map Doc.id (buildDocs cloud byId) = map Search.CloudItem.id cloud
  /\ map Doc.iconURL (buildDocs cloud byId)
     = map Search.CloudItem.previewLocal cloud
  /\ Forall
       (fun d =>
          Search.hasUnderscore (Doc.title d) = false
          /\ Doc.rawTitle d <> ""
          /\ Doc.url d <> Some ""
          /\ Forall cleanTag (Doc.tags d)
          /\ List.NoDup (map toLowerCase (Doc.tags d)))
       (buildDocs cloud byId).
Proof.
  unfold buildDocs. rewrite !map_map. split; [reflexivity|].
  split; [reflexivity|].
  apply List.Forall_forall. intros d Hd.
  apply in_map_iff in Hd as (it & <- & _). cbn [buildDoc Doc.title
    Doc.rawTitle Doc.url Doc.tags].
  split; [|split; [|split]].
  - match goal with
    | |- Search.hasUnderscore (if Search.hasUnderscore ?raw then _ else _)
         = false =>
        destruct (Search.hasUnderscore raw) eqn:Hu;
          [apply cleanFileDisplay_no_underscore | exact Hu]
    end.
  - apply strOr_untitled.
  - apply optOrOpt_none_not_empty.
  - apply coerceTags_cleanTags.
Qed.

(** X14. The title the cloud page displays never holds an underscore:
    [displayTitleFor] returns a cleaned filename, or a title without
    underscore, or ["Untitled"]. *)
Theorem displayTitleFor_no_underscore (byId : gmap string Cloud.FullRecord.t)
  (meta : Cloud.Doc.t) :
  Cloud.hasUnderscore (Cloud.displayTitleFor byId meta) = false.
Proof.
  unfold Cloud.displayTitleFor. cbv zeta.
  set (recT := optOr (Cloud.recTitle (byId !! identKey (Cloud.Doc.id meta))) "").
  destruct (truthy recT && Cloud.hasUnderscore recT) eqn:H1;
    [apply cleanFileDisplay_no_underscore|].
  destruct (truthy (Cloud.Doc.title meta)
            && Cloud.hasUnderscore (Cloud.Doc.title meta)) eqn:H2;
    [apply cleanFileDisplay_no_underscore|].
  match goal with
  | |- Cloud.hasUnderscore (if ?c then _ else _) = false =>
      destruct c; [apply cleanFileDisplay_no_underscore|]
  end.
  unfold strOr.
  destruct (truthy (Cloud.Doc.title meta)) eqn:Ht.
  - rewrite ?Ht. simpl in H2. exact H2.
  - destruct (truthy recT) eqn:Hr.
    + rewrite ?Hr. simpl in H1. exact H1.
    + reflexivity.
Qed.

(** ** Further properties: cards, listeners and boot *)

Lemma firstn_length_le {A} (n : nat) (l : list A) :
  (List.length (firstn n l) <= n)%nat.
Proof. rewrite length_firstn. lia. Qed.

(** X15. The cards of built documents: every card has a heading that is
    neither empty nor holds an underscore, and at most ten pills, the
    first tags of the document; and a document whose underlying title
    holds an underscore but fewer than four underscore-delimited segments
    has an empty display title and is headed ["Untitled"]. *)
Theorem cards_of_built_docs (cloud : list Search.CloudItem.t)
  (byId : gmap string Search.FullRecord.t) :
  Forall2
    (fun d c =>
       heading c <> "" /\ Search.hasUnderscore (heading c) = false
       /\ (List.length (pills c) <= 10)%nat
       /\ (exists rest, Doc.tags d = (pills c ++ rest)%list)
       /\ (Search.hasUnderscore (Doc.rawTitle d) = true ->
           (List.length (fileSegments (Doc.rawTitle d)) <= 3)%nat ->
           Doc.title d = "" /\ heading c = "Untitled"))
    (buildDocs cloud byId) (renderResults (buildDocs cloud byId)).
Proof.
  unfold renderResults.
  assert (Hinv : Forall (fun d => Search.hasUnderscore (Doc.title d) = false
                                  /\ Doc.title d =
                                     (if Search.hasUnderscore (Doc.rawTitle d)
                                      then Search.cleanFileDisplay (Doc.rawTitle d)
                                      else Doc.rawTitle d))
                   (buildDocs cloud byId)).
  { apply List.Forall_forall. intros d Hd. unfold buildDocs in Hd.
    apply in_map_iff in Hd as (it & <- & _). split; [|reflexivity].
    cbn [buildDoc Doc.title].
    match goal with
    | |- Search.hasUnderscore (if Search.hasUnderscore ?raw then _ else _)
         = false =>
        destruct (Search.hasUnderscore raw) eqn:Hu;
          [apply cleanFileDisplay_no_underscore | exact Hu]
    end. }
  induction Hinv as [|d l [Hd Ht] Hl IH]; [constructor|].
  cbn [map]. constructor; [|exact IH].
  cbn [renderCard heading pills].
  split; [apply strOr_untitled|]. split.
  - unfold strOr. destruct (truthy (Doc.title d)); [exact Hd | reflexivity].
  - split; [apply firstn_length_le|]. split.
    + exists (skipn 10 (Doc.tags d)). symmetry. apply firstn_skipn.
    + intros Hu Hseg. rewrite Hu in Ht.
      rewrite (cleanFileDisplay_empty _ Hseg) in Ht.
      rewrite Ht. split; reflexivity.
Qed.

Lemma cards_of_built_docs_witness :
  map heading (renderResults (buildDocs [shortTitleItem] ∅)) = ["Untitled"].
Proof.
  pose proof (cards_of_built_docs [shortTitleItem] ∅) as H.
  unfold buildDocs, renderResults in *. cbn [map] in *.
  apply List.Forall2_cons_iff in H as [(_ & _ & _ & _ & Hshort) _].
  destruct Hshort as [_ Hh]; [reflexivity | vm_compute; lia |].
  rewrite Hh. reflexivity.
Defined.











(** ** Further properties: year coercion *)

Lemma uintValue_acc (d : Decimal.uint) (acc : positive) :
  uintValue (Z.pos acc) d = Z.pos (Pos.of_uint_acc d acc).
Proof.
  revert acc. induction d; intros acc; cbn [uintValue Pos.of_uint_acc];
    try reflexivity;
    match goal with
    | |- uintValue ?z _ = Z.pos (Pos.of_uint_acc _ ?p) =>
        replace z with (Z.pos p) by lia
    end; apply IHd.
Qed.

Lemma uintValue_of_uint (d : Decimal.uint) :
  uintValue 0 d = Z.of_N (Pos.of_uint d).
Proof.
  induction d; cbn [uintValue Pos.of_uint]; try reflexivity; try exact IHd;
    match goal with
    | |- uintValue ?z _ = _ =>
        let v := eval compute in z in change z with v
    end; rewrite uintValue_acc; reflexivity.
Qed.

Lemma digitsValue_numeral (d : Decimal.uint) (acc : Z) (rest : string) :
  digitsValue acc (NilEmpty.string_of_uint d ++ rest)
  = digitsValue (uintValue acc d) rest.
Proof.
  revert acc. induction d; intros acc;
    cbn [NilEmpty.string_of_uint uintValue];
    rewrite ?append_nil_l, ?append_cons; try reflexivity;
    cbn [digitsValue]; apply IHd.
Qed.

Lemma digitsValue_stop (acc : Z) (rest : string) :
  startsWithDigit rest = false -> digitsValue acc rest = acc.
Proof. destruct rest as [|c r]; [reflexivity|]. simpl. intros ->. reflexivity. Qed.

Lemma numeral_starts (d : Decimal.uint) (rest : string) :
  d <> Decimal.Nil ->
  startsWithDigit (NilEmpty.string_of_uint d ++ rest) = true
  /\ startsClean (NilEmpty.string_of_uint d ++ rest) = true
  /\ NilZero.string_of_uint d = NilEmpty.string_of_uint d.
Proof. destruct d; [congruence | ..]; intros _; repeat split. Qed.

Lemma toDouble_exact (m : Z) : 0 <= m <= 2 ^ 53 -> toDouble m = Some m.
Proof.
  intros [_ H]. unfold toDouble.
  destruct (Z.ltb_spec m (2 ^ 53)) as [|Hge]; [reflexivity|].
  assert (m = 2 ^ 53) as -> by lia. vm_compute. reflexivity.
Qed.

Lemma toDouble_overflow (m : Z) : 2 ^ 1024 <= m -> toDouble m = None.
Proof.
  intros H. unfold toDouble.
  assert (H53 : 2 ^ 53 <= 2 ^ 1024) by (apply Z.pow_le_mono_r; lia).
  assert (Hpos : 0 < m) by (pose proof (Z.pow_pos_nonneg 2 53); lia).
  destruct (Z.ltb_spec m (2 ^ 53)) as [|_]; [lia|]. cbv zeta.
  set (e := Z.log2 m - 52).
  assert (Hlog : 1024 <= Z.log2 m).
  { rewrite <- (Z.log2_pow2 1024) by lia. apply Z.log2_le_mono, H. }
  assert (He : 0 <= e) by (unfold e; lia).
  assert (Hsig : 2 ^ 52 <= Z.shiftr m e).
  { rewrite Z.shiftr_div_pow2 by exact He.
    replace (2 ^ 52) with (2 ^ Z.log2 m / 2 ^ e).
    - apply Z.div_le_mono; [apply Z.pow_pos_nonneg; lia|].
      apply Z.log2_spec, Hpos.
    - unfold e. rewrite <- Z.pow_sub_r by lia. f_equal. lia. }
  assert (Hp : 0 < 2 ^ e) by (apply Z.pow_pos_nonneg; lia).
  assert (H2 : 2 ^ 1024 <= 2 ^ 52 * 2 ^ e).
  { rewrite <- Z.pow_add_r by lia. apply Z.pow_le_mono_r; lia. }
  match goal with
  | |- (if Z.shiftl ?sig e <? ?b then _ else _) = None =>
      assert (Hv : b <= Z.shiftl sig e);
        [| apply Z.ltb_ge in Hv; rewrite Hv; reflexivity]
  end.
  rewrite Z.shiftl_mul_pow2 by exact He.
  destruct (_ || _); nia.
Qed.

Lemma parseInt10_numeral (p : positive) (rest : string) :
  startsWithDigit rest = false ->
  parseInt10 (NilEmpty.string_of_uint (Pos.to_uint p) ++ rest)
  = match toDouble (Z.pos p) with Some v => VNum v | None => VInfinity end
  /\ parseInt10 (String "-" (NilEmpty.string_of_uint (Pos.to_uint p) ++ rest))
     = match toDouble (Z.pos p) with
       | Some v => VNum (- v)
       | None => VInfinity
       end.
Proof.
  intros Hrest.
  destruct (numeral_starts (Pos.to_uint p) rest
              (DecimalPos.Unsigned.to_uint_nonnil p)) as (Hd & Hc & _).
  assert (Hv : digitsValue 0 (NilEmpty.string_of_uint (Pos.to_uint p) ++ rest)
               = Z.pos p).
  { rewrite digitsValue_numeral, (digitsValue_stop _ _ Hrest).
    rewrite uintValue_of_uint, DecimalPos.Unsigned.of_to. reflexivity. }
  split.
  - unfold parseInt10. rewrite (trimStart_clean _ Hc).
    destruct (NilEmpty.string_of_uint (Pos.to_uint p) ++ rest)%string
      as [|c r] eqn:Hs; [discriminate|].
    assert (H45 : (code c =? 45) = false).
    { destruct (Z.eqb_spec (code c) 45) as [E|]; [|reflexivity].
      simpl in Hd. unfold isDigit, between in Hd. rewrite E in Hd.
      discriminate. }
    assert (H43 : (code c =? 43) = false).
    { destruct (Z.eqb_spec (code c) 43) as [E|]; [|reflexivity].
      simpl in Hd. unfold isDigit, between in Hd. rewrite E in Hd.
      discriminate. }
    rewrite H45, H43, Hd, Hv. reflexivity.
  - unfold parseInt10. cbn [trimStart]. change (isWhiteSpace "-") with false.
    cbv iota. change (code "-" =? 45) with true. cbv iota.
    rewrite Hd, Hv. reflexivity.
Qed.

(** What [parseInt] makes of the decimal digits of an integer. *)
Lemma parseInt10_numberToString (n : Z) (rest : string) :
  startsWithDigit rest = false ->
  parseInt10 (numberToString n ++ rest)
  = match toDouble (Z.abs n) with
    | Some v => VNum (Z.sgn n * v)
    | None => VInfinity
    end.
Proof.
  intros Hrest. destruct n as [|p|p].
  - change (numberToString 0) with "0". rewrite append_cons, append_nil_l.
    unfold parseInt10. cbn [trimStart]. change (isWhiteSpace "0") with false.
    cbv iota. change (code "0" =? 45) with false.
    change (code "0" =? 43) with false. cbv iota.
    cbn [startsWithDigit]. change (isDigit "0") with true. cbv iota.
    cbn [digitsValue]. change (isDigit "0") with true. cbv iota.
    rewrite (digitsValue_stop _ _ Hrest). reflexivity.
  - unfold numberToString. cbn [Z.to_int NilZero.string_of_int].
    destruct (numeral_starts (Pos.to_uint p) rest
                (DecimalPos.Unsigned.to_uint_nonnil p)) as (_ & _ & ->).
    rewrite (proj1 (parseInt10_numeral p rest Hrest)).
    change (Z.abs (Z.pos p)) with (Z.pos p).
    destruct (toDouble (Z.pos p)) as [v|]; [|reflexivity].
    f_equal; change (Z.sgn (Z.pos p)) with 1; lia.
  - unfold numberToString. cbn [Z.to_int NilZero.string_of_int].
    destruct (numeral_starts (Pos.to_uint p) rest
                (DecimalPos.Unsigned.to_uint_nonnil p)) as (_ & _ & ->).
    rewrite append_cons, (proj2 (parseInt10_numeral p rest Hrest)).
    change (Z.abs (Z.neg p)) with (Z.pos p).
    destruct (toDouble (Z.pos p)) as [v|]; [|reflexivity].
    f_equal; change (Z.sgn (Z.neg p)) with (-1); lia.
Qed.

Lemma trimStart_app_blank (ws s : string) :
  sall isWhiteSpace ws = true -> trimStart (ws ++ s) = trimStart s.
Proof.
  induction ws as [|c ws IH]; [reflexivity|]. intros H. simpl in H.
  apply andb_true_iff in H as [Hc Hw].
  rewrite append_cons. cbn [trimStart]. rewrite Hc. apply IH, Hw.
Qed.

Lemma parseInt10_trimStart (s : string) :
  parseInt10 (trimStart s) = parseInt10 s.
Proof.
  unfold parseInt10.
  rewrite (trimStart_clean (trimStart s) (trimStart_startsClean s)).
  reflexivity.
Qed.

(** X18. [numericYear] on text reads a leading integer as a Number and
    ignores the rest.  Take white space, then the decimal digits of an
    integer [n], then anything that does not start with a digit: if [n]
    is at most 2^53 in absolute value, where every integer is a Number,
    the text coerces to [n]; if [n] is 2^1024 or more in absolute value,
    the Number is infinite and the text coerces to [null]; in both
    scripts.  Text that is empty or all white space coerces to [null]. *)
Theorem numericYear_reads_prefix (n : Z) (ws rest : string) :
  sall isWhiteSpace ws = true -> startsWithDigit rest = false ->
  (Z.abs n <= 2 ^ 53 ->
   Search.numericYear (VStr (ws ++ numberToString n ++ rest)) = Some n
   /\ Cloud.numericYear (VStr (ws ++ numberToString n ++ rest)) = Some n)
  /\ (2 ^ 1024 <= Z.abs n ->
      Search.numericYear (VStr (ws ++ numberToString n ++ rest)) = None
      /\ Cloud.numericYear (VStr (ws ++ numberToString n ++ rest)) = None)
  /\ Search.numericYear (VStr ws) = None
  /\ Cloud.numericYear (VStr ws) = None.
Proof.
  intros Hws Hrest.
  assert (H1 : parseInt10 (ws ++ numberToString n ++ rest)
               = match toDouble (Z.abs n) with
                 | Some v => VNum (Z.sgn n * v)
                 | None => VInfinity
                 end).
  { rewrite <- parseInt10_trimStart, (trimStart_app_blank _ _ Hws).
    rewrite parseInt10_trimStart. apply parseInt10_numberToString, Hrest. }
  assert (H2 : parseInt10 ws = VNaN).
  { unfold parseInt10. apply trimStart_empty_iff in Hws. rewrite Hws.
    reflexivity. }
  unfold Search.numericYear, Cloud.numericYear. rewrite H1, H2.
  split; [|split; [|split; reflexivity]].
  - intros Hn. rewrite toDouble_exact by lia. cbn [finiteOrNull].
    replace (Z.sgn n * Z.abs n) with n by lia. split; reflexivity.
  - intros Hn. rewrite (toDouble_overflow _ Hn). split; reflexivity.
Qed.

Lemma numericYear_reads_prefix_witness :
  Search.numericYear (VStr "  1968 (circa)") = Some 1968
  /\ Cloud.numericYear (VStr "  1968 (circa)") = Some 1968.
Proof.
  destruct (numericYear_reads_prefix 1968 "  " " (circa)" eq_refl eq_refl)
    as (H1 & _).
  apply H1. vm_compute. discriminate.
Defined.

(** ** Further properties: relevance and the text filter *)

Lemma append_assoc (a b c : string) :
  ((a ++ b) ++ c)%string = (a ++ b ++ c)%string.
Proof.
  induction a as [|x a IH]; [reflexivity|].
  rewrite !append_cons, IH. reflexivity.
Qed.

Lemma isSubstring_refl (s : string) : isSubstring s s.
Proof.
  exists "", "". rewrite append_nil_l.
  induction s as [|c s IH]; [reflexivity|].
  rewrite append_cons, <- IH. reflexivity.
Qed.

Lemma isSubstring_trans (a b c : string) :
  isSubstring a b -> isSubstring b c -> isSubstring a c.
Proof.
  intros (u & v & ->) (x & y & ->). exists (x ++ u)%string, (v ++ y)%string.
  rewrite !append_assoc. reflexivity.
Qed.

Lemma isSubstring_cons (c : ascii) (w s : string) :
  isSubstring w s -> isSubstring w (String c s).
Proof. intros (u & v & ->). exists (String c u), v. reflexivity. Qed.

Lemma isSubstring_empty (s : string) : isSubstring "" s.
Proof. exists "", s. reflexivity. Qed.

Section Segments.
Variable p : ascii -> bool.

(** Outside a run the first segment of a split is a prefix of the
    text. *)
Lemma splitRunsFrom_head (s : string) :
  exists w ws r, splitRunsFrom p false s = w :: ws /\ s = (w ++ r)%string.
Proof.
  induction s as [|c s (w & ws & r & Hs & Hr)].
  - exists "", [], "". split; reflexivity.
  - cbn [splitRunsFrom]. destruct (p c).
    + exists "", (splitRunsFrom p true s), (String c s). split; reflexivity.
    + rewrite Hs. exists (String c w), ws, r. split; [reflexivity|].
      rewrite append_cons, <- Hr. reflexivity.
Qed.

(** Every segment of a split occurs in the text. *)
Lemma splitRunsFrom_substrings (b : bool) (s : string) :
  Forall (fun w => isSubstring w s) (splitRunsFrom p b s).
Proof.
  revert b. induction s as [|c s IH]; intros b.
  - repeat constructor. apply isSubstring_refl.
  - cbn [splitRunsFrom]. destruct (p c).
    + assert (H : Forall (fun w => isSubstring w (String c s))
                    (splitRunsFrom p true s)).
      { eapply List.Forall_impl; [|apply IH]. intros w. apply isSubstring_cons. }
      destruct b; [exact H | constructor; [apply isSubstring_empty | exact H]].
    + destruct (splitRunsFrom_head s) as (w & ws & r & Hs & Hr).
      specialize (IH false). rewrite Hs in IH |- *.
      apply List.Forall_cons_iff in IH as [_ Hws]. constructor.
      * exists "", r. rewrite append_nil_l, append_cons, <- Hr. reflexivity.
      * eapply List.Forall_impl; [|exact Hws]. intros u.
        apply isSubstring_cons.
Qed.
End Segments.

Lemma tokensOf_substrings (query : string) :
  Forall (fun w => isSubstring w query) (tokensOf query).
Proof.
  unfold tokensOf, splitRuns.
  pose proof (splitRunsFrom_substrings isWhiteSpace false query) as H.
  rewrite List.Forall_forall in *. intros w Hw.
  apply filter_In in Hw as [Hw _]. apply H, Hw.
Qed.

Lemma tokensOf_blank (query : string) :
  sall isWhiteSpace query = true -> tokensOf query = [].
Proof.
  unfold tokensOf, splitRuns. generalize false.
  induction query as [|c s IH]; intros b H; [reflexivity|].
  simpl in H. apply andb_true_iff in H as [Hc Hs].
  cbn [splitRunsFrom]. rewrite Hc.
  destruct b; cbn [List.filter truthy isEmpty negb]; apply IH, Hs.
Qed.

Lemma scoreRelevance_formula (d : Doc.t) (query : string) :
  scoreRelevance d query =
  if sall isWhiteSpace query then 0
  else
    (if includes (toLowerCase (Doc.title d)) (toLowerCase query) then 5 else 0)
    + (if includes (toLowerCase (optOr (Doc.description d) ""))
            (toLowerCase query)
       then 2 else 0)
    + Z.of_nat
        (List.length
           (List.filter (fun t => includes (toLowerCase t) (toLowerCase query))
              (Doc.tags d))).
Proof.
  unfold scoreRelevance. rewrite blank_iff.
  destruct (sall isWhiteSpace query); [reflexivity|].
  cbv zeta. rewrite fold_left_count, strOr_empty.
  destruct (includes _ _), (includes _ _); lia.
Qed.

(** The text filter, without the case distinction on a blank query: a
    blank query has no token. *)
Lemma matchesText_tokens (d : Doc.t) (query : string) :
  matchesText d query =
  forallb
    (fun t =>
       existsb (fun h => includes h t)
         (map toLowerCase
            (Doc.title d :: optOr (Doc.description d) "" :: Doc.tags d)))
    (map toLowerCase (tokensOf query)).
Proof.
  unfold matchesText. rewrite blank_iff.
  destruct (sall isWhiteSpace query) eqn:Hb.
  - rewrite (tokensOf_blank _ Hb). reflexivity.
  - cbv zeta. rewrite strOr_empty.
    change (List.filter truthy (splitRuns isWhiteSpace (toLowerCase query)))
      with (tokensOf (toLowerCase query)).
    rewrite tokensOf_toLowerCase. reflexivity.
Qed.

(** X19. The relevance score lies between 0 and 7 plus the number of
    tags, and a document with a positive score for a query passes the text
    filter for that query. *)
Theorem scoreRelevance_bounds_and_filter (d : Doc.t) (query : string) :
  0 <= scoreRelevance d query
  /\ scoreRelevance d query <= 7 + Z.of_nat (List.length (Doc.tags d))
  /\ (0 < scoreRelevance d query -> matchesText d query = true).
Proof.
  rewrite scoreRelevance_formula.
  pose proof (List.filter_length_le
                (fun t => includes (toLowerCase t) (toLowerCase query))
                (Doc.tags d)) as Hlen.
  destruct (sall isWhiteSpace query) eqn:Hb; [lia|].
  split; [|split].
  - destruct (includes _ _), (includes _ _); lia.
  - destruct (includes _ _), (includes _ _); lia.
  - intros Hpos.
    assert (Hfield : exists field,
               In field (Doc.title d :: optOr (Doc.description d) ""
                           :: Doc.tags d)
               /\ isSubstring (toLowerCase query) (toLowerCase field)).
    { destruct (includes (toLowerCase (Doc.title d)) (toLowerCase query))
        eqn:H1.
      { exists (Doc.title d). split; [left; reflexivity|].
        apply includes_iff, H1. }
      destruct (includes (toLowerCase (optOr (Doc.description d) ""))
                  (toLowerCase query)) eqn:H2.
      { exists (optOr (Doc.description d) "").
        split; [right; left; reflexivity|]. apply includes_iff, H2. }
      destruct (List.filter
                  (fun t => includes (toLowerCase t) (toLowerCase query))
                  (Doc.tags d)) as [|t ts] eqn:Hf; [simpl in Hpos; lia|].
      assert (Ht : In t (List.filter
                           (fun t => includes (toLowerCase t)
                                       (toLowerCase query))
                           (Doc.tags d))) by (rewrite Hf; left; reflexivity).
      apply filter_In in Ht as [Hin Ht].
      exists t. split; [right; right; exact Hin|]. apply includes_iff, Ht. }
    destruct Hfield as (field & Hin & Hsub).
    rewrite matchesText_tokens. apply forallb_forall. intros t Ht.
    apply existsb_exists. exists (toLowerCase field).
    split; [apply in_map, Hin|]. apply includes_iff.
    eapply isSubstring_trans; [|exact Hsub].
    rewrite <- tokensOf_toLowerCase in Ht.
    pose proof (tokensOf_substrings (toLowerCase query)) as Hs.
    rewrite List.Forall_forall in Hs. apply Hs, Ht.
Qed.

Lemma scoreRelevance_bounds_and_filter_witness :
  matchesText strikeDoc "strike" = true.
Proof.
  apply (scoreRelevance_bounds_and_filter strikeDoc "strike").
  vm_compute. reflexivity.
Defined.

Lemma forallb_same_elements {A} (f : A -> bool) (l1 l2 : list A) :
  (forall x, In x l1 <-> In x l2) -> forallb f l1 = forallb f l2.
Proof.
  intros H. apply eq_true_iff_eq. rewrite !forallb_forall.
  split; intros Hf x Hx; apply Hf, H, Hx.
Qed.

(** X20. The text filter sees a query only through the set of its
    lowercased tokens: two queries with the same tokens up to case, order,
    repetition and the white space between them pass the same
    documents. *)
Theorem matchesText_token_set (d : Doc.t) (q1 q2 : string) :
  (forall t, In t (map toLowerCase (tokensOf q1))
             <-> In t (map toLowerCase (tokensOf q2))) ->
  matchesText d q1 = matchesText d q2.
Proof.
  intros H. rewrite !matchesText_tokens. apply forallb_same_elements, H.
Qed.

Lemma matchesText_token_set_witness :
  matchesText strikeDoc "  Committee STRIKE strike " 
  = matchesText strikeDoc "strike committee".
Proof.
  apply matchesText_token_set. intros t. vm_compute. tauto.
Defined.

(** ** Further properties: queries of several words *)

Section TokensAppend.
Variable p : ascii -> bool.

Lemma tokens_flag (s : string) :
  List.filter truthy (splitRunsFrom p true s)
  = List.filter truthy (splitRunsFrom p false s).
Proof. destruct s as [|c s]; [reflexivity|]. simpl. destruct (p c); reflexivity. Qed.

Lemma splitRunsFrom_app (sp : ascii) (a rest : string) :
  p sp = true ->
  exists w ws ws',
    splitRunsFrom p false a = w :: ws
    /\ splitRunsFrom p false (a ++ String sp rest) = w :: ws'
    /\ List.filter truthy ws'
       = (List.filter truthy ws
          ++ List.filter truthy (splitRunsFrom p true rest))%list.
Proof.
  intros Hsp. induction a as [|c a (w & ws & ws' & Ha & Hb & Hf)].
  - exists "", [], (splitRunsFrom p true rest).
    rewrite append_nil_l. cbn [splitRunsFrom]. rewrite Hsp.
    repeat split; reflexivity.
  - rewrite append_cons. cbn [splitRunsFrom]. destruct (p c).
    + exists "", (splitRunsFrom p true a),
        (splitRunsFrom p true (a ++ String sp rest)).
      split; [reflexivity|]. split; [reflexivity|].
      rewrite !tokens_flag, Ha, Hb. cbn [List.filter].
      destruct (truthy w); cbn [app]; rewrite Hf, <- tokens_flag; reflexivity.
    + rewrite Ha, Hb. exists (String c w), ws, ws'.
      repeat split; [exact Hf].
Qed.
End TokensAppend.

Lemma tokensOf_app (sp : ascii) (a b : string) :
  isWhiteSpace sp = true ->
  tokensOf (a ++ String sp b) = (tokensOf a ++ tokensOf b)%list.
Proof.
  intros Hsp. unfold tokensOf, splitRuns.
  destruct (splitRunsFrom_app isWhiteSpace sp a b Hsp)
    as (w & ws & ws' & -> & -> & Hf).
  cbn [List.filter]. rewrite Hf, <- tokens_flag.
  destruct (truthy w); reflexivity.
Qed.

Lemma matchesQuery_tokens (byId : gmap string Cloud.FullRecord.t)
  (meta : Cloud.Doc.t) (query : string) :
  Cloud.matchesQuery byId meta query =
  forallb
    (fun t =>
       match Cloud.tagMatch t with
       | Some want =>
           setHas
             (fold_left setAdd (map toLowerCase (combinedTags byId meta)) [])
             want
       | None =>
           existsb (fun h => includes h t)
             (map toLowerCase
                (Cloud.displayTitleFor byId meta
                 :: optOr (Cloud.Doc.description meta) ""
                 :: combinedTags byId meta))
       end)
    (map toLowerCase (tokensOf query)).
Proof.
  unfold Cloud.matchesQuery. rewrite blank_iff.
  destruct (sall isWhiteSpace query) eqn:Hb.
  - rewrite (tokensOf_blank _ Hb). reflexivity.
  - cbv zeta.
    change (List.filter truthy (splitRuns isWhiteSpace (toLowerCase query)))
      with (tokensOf (toLowerCase query)).
    rewrite tokensOf_toLowerCase, combinedTags_eq.
    cbn [map]. rewrite map_app. reflexivity.
Qed.

(** X21. Both text predicates are conjunctions over the tokens: a query
    made of two queries with a space between them passes a document
    exactly when both parts do, on the search page and on the cloud
    page. *)
Theorem text_predicates_conjunctive :
  (forall (d : Doc.t) (q1 q2 : string),
      matchesText d (q1 ++ " " ++ q2) = matchesText d q1 && matchesText d q2)
  /\ (forall (byId : gmap string Cloud.FullRecord.t) (meta : Cloud.Doc.t)
        (q1 q2 : string),
         Cloud.matchesQuery byId meta (q1 ++ " " ++ q2)
         = Cloud.matchesQuery byId meta q1 && Cloud.matchesQuery byId meta q2).
Proof.
  split.
  - intros d q1 q2. rewrite !matchesText_tokens.
    rewrite append_cons, append_nil_l, (tokensOf_app " " q1 q2 eq_refl).
    rewrite map_app. apply forallb_app.
  - intros byId meta q1 q2. rewrite !matchesQuery_tokens.
    rewrite append_cons, append_nil_l, (tokensOf_app " " q1 q2 eq_refl).
    rewrite map_app. apply forallb_app.
Qed.

(** ** Further properties: ordering by year *)

Lemma year_desc_null_year_last_witness :
  sort (compareDocs (fun _ _ => 0) (setSort initialState "year-desc"))
    [sampleDoc None; sampleDoc (Some 1968)]
  = [sampleDoc (Some 1968); sampleDoc None].
Proof.
  destruct (year_desc_null_year_last (fun _ _ => 0)
              (setSort initialState "year-desc")
              (sampleDoc (Some 1968)) (sampleDoc None) 1968) as [_ H];
    [reflexivity | reflexivity | lia | reflexivity | exact H].
Defined.
